(** * Feed-forward networks of deepxde's PyTorch backend

    A shallow embedding of [deepxde/nn/pytorch/fnn.py]: the fully-connected
    network [FNN] and the parallel network [PFNN], with the layer
    construction ([initialize_layers]) and the forward pass ([forward]) of
    both classes.

    Python exceptions are values of [exn]; code that can raise lives in the
    monad [M St], a state monad with exceptions.  Construction threads the
    random generator of the tensor framework, the forward pass threads the
    network object itself, so that what it writes (nothing) can be stated. *)

From stdpp Require Import base list strings.
From Stdlib Require Import ZArith.

Local Open Scope string_scope.
Local Open Scope nat_scope.
Local Open Scope list_scope.

(** ** Exceptions and the monad *)

Inductive exn :=
  | AssertionError (msg : string)
  | IndexError
  | TypeError
  | AttributeError
  | ValueError
  | RuntimeError
  | NotImplementedError.

Inductive result (A : Type) :=
  | Ok (a : A)
  | Raise (e : exn).
Arguments Ok {A} a.
Arguments Raise {A} e.

Global Instance result_ret : MRet result := λ A a, Ok a.
Global Instance result_bind : MBind result := λ A B f r,
  match r with Ok a => f a | Raise e => Raise e end.

(** A computation over a state [St]; the state survives an exception, as a
    Python object survives an exception raised by one of its methods. *)
Definition M (St A : Type) : Type := St → result A * St.

Global Instance M_ret {St} : MRet (M St) := λ A a s, (Ok a, s).
Global Instance M_bind {St} : MBind (M St) := λ A B f m s,
  match m s with
  | (Ok a, s') => f a s'
  | (Raise e, s') => (Raise e, s')
  end.

Definition raise {St A} (e : exn) : M St A := λ s, (Raise e, s).
Definition lift {St A} (r : result A) : M St A := λ s, (r, s).
Definition get {St} : M St St := λ s, (Ok s, s).

(** [m] returns from state [s], with a value and a state that satisfy
    [Q]. *)
Definition returns {St A} (m : M St A) (s : St) (Q : A → St → Prop) : Prop :=
  match m s with
  | (Ok a, s') => Q a s'
  | (Raise _, _) => False
  end.

(** [m] leaves every state as it found it, also when it raises. *)
Definition readonly {St A} (m : M St A) : Prop := ∀ s, (m s).2 = s.

(** [assert cond, msg] *)
Definition assert {St} (cond : bool) (msg : string) : M St unit :=
  if cond then mret tt else raise (AssertionError msg).

(** [for x in xs: acc = body(x, acc)] *)
Fixpoint for_each {St A X} (xs : list X) (body : X → A → M St A) (acc : A)
    : M St A :=
  match xs with
  | [] => mret acc
  | x :: xs' => acc' ← body x acc; for_each xs' body acc'
  end.

(** The same loop for a body that keeps no state. *)
Fixpoint for_each_pure {A X} (xs : list X) (body : X → A → result A)
    (acc : A) : result A :=
  match xs with
  | [] => Ok acc
  | x :: xs' => acc' ← body x acc; for_each_pure xs' body acc'
  end.

(** A loop over the consecutive pairs of [prev :: rest]. *)
Fixpoint for_pairs {St A X} (prev : X) (rest : list X)
    (body : X → X → A → M St A) (acc : A) : M St A :=
  match rest with
  | [] => mret acc
  | curr :: rest' =>
      acc' ← body prev curr acc; for_pairs curr rest' body acc'
  end.

(** [range(a, b)] *)
Definition range (a b : nat) : list nat := seq a (b - a).

(** [l[i]] for [i >= 0] *)
Definition index {A} (l : list A) (i : nat) : result A :=
  match l !! i with
  | Some x => Ok x
  | None => Raise IndexError
  end.

(** [l[-k]] for [k >= 1] *)
Definition index_neg {A} (l : list A) (k : nat) : result A :=
  if decide (k ≤ length l) then index l (length l - k) else Raise IndexError.

(** [l[:-1]] *)
Definition slice_init {A} (l : list A) : list A := take (length l - 1) l.

(** ** Layer sizes

    An entry of [layer_sizes] is an int (one layer shared by all outputs)
    or a list of ints (one sub-layer per output). *)

Inductive size :=
  | Scalar (n : nat)
  | Branched (ns : list nat).

(** [isinstance(s, int)] *)
Definition is_int (s : size) : bool :=
  match s with Scalar _ => true | Branched _ => false end.

(** [isinstance(s, (list, tuple))] *)
Definition is_list (s : size) : bool :=
  match s with Scalar _ => false | Branched _ => true end.

(** ** The tensor framework

    What [fnn.py] imports and does not define.  The values are of a type
    [scalar]; [rng] is the state of the framework's random generator. *)

Inductive dtype := float16 | float32 | float64.

Class Backend := {
  scalar : Type;
  s0 : scalar;
  sadd : scalar → scalar → scalar;
  smul : scalar → scalar → scalar;
  rng : Type;
  (** the values [torch.nn.Linear] gives a parameter of some shape when it
      creates it ([reset_parameters]) *)
  fresh : list nat → rng → list scalar * rng;
  (** [torch.get_default_dtype()] *)
  default_dtype : dtype;
  (** [config.real(torch)] *)
  config_real : dtype;
  (** Modelled from the spec: the activation-function lookup
      [activations.get], name to elementwise function. *)
  activations_get : string → option (scalar → scalar);
  (** Modelled from the spec: the initializer lookup [initializers.get],
      name to in-place tensor initializer; an initializer sees the shape and
      the values of the tensor and leaves new values. *)
  initializers_get :
    string → option (list nat → list scalar → rng → list scalar * rng)
}.

Section Framework.
Context `{Backend}.

Definition initializer : Type :=
  list nat → list scalar → rng → list scalar * rng.

(** A batch of feature vectors, of shape [(length rows, width)]. *)
Record Tensor := { width : nat; rows : list (list scalar) }.

(** A parameter tensor in row-major order. *)
Record Param := { shape : list nat; data : list scalar }.

Record Linear := {
  in_features : nat;
  out_features : nat;
  weight : Param;
  bias : option Param;
  linear_dtype : dtype
}.

(** Values a call can pass for the optional arguments of
    [torch.nn.Linear(in_features, out_features, bias=True, device=None,
    dtype=None)]. *)
Inductive pyval :=
  | PyBool (b : bool)
  | PyNone
  | PyDtype (d : dtype).

(** [bool(v)]: a dtype object defines neither [__bool__] nor [__len__]. *)
Definition truthy (v : pyval) : bool :=
  match v with
  | PyBool b => b
  | PyNone => false
  | PyDtype _ => true
  end.

Definition Linear_optional : list (string * pyval) :=
  [("bias", PyBool true); ("device", PyNone); ("dtype", PyNone)].

(** Positional arguments fill the parameters from the left. *)
Fixpoint bind_positional (params : list (string * pyval)) (args : list pyval)
    : result (list (string * pyval)) :=
  match args, params with
  | [], _ => Ok params
  | a :: args', (k, _) :: params' =>
      rest ← bind_positional params' args'; Ok ((k, a) :: rest)
  | _ :: _, [] => Raise TypeError
  end.

(** A keyword argument sets the parameter of its name, unless that one is
    among the first [npos], which the positional arguments took. *)
Fixpoint bind_keyword (params : list (string * pyval)) (npos : nat)
    (k : string) (v : pyval) : result (list (string * pyval)) :=
  match params with
  | [] => Raise TypeError
  | (k', d) :: params' =>
      if String.eqb k k' then
        match npos with
        | 0 => Ok ((k', v) :: params')
        | S _ => Raise TypeError
        end
      else rest ← bind_keyword params' (pred npos) k v; Ok ((k', d) :: rest)
  end.

Fixpoint bind_keywords (params : list (string * pyval)) (npos : nat)
    (kwargs : list (string * pyval)) : result (list (string * pyval)) :=
  match kwargs with
  | [] => Ok params
  | (k, v) :: kwargs' =>
      params' ← bind_keyword params npos k v;
      bind_keywords params' npos kwargs'
  end.

Definition bind_signature (args : list pyval) (kwargs : list (string * pyval))
    : result (list (string * pyval)) :=
  params ← bind_positional Linear_optional args;
  bind_keywords params (length args) kwargs.

Fixpoint lookup_param (params : list (string * pyval)) (k : string) : pyval :=
  match params with
  | [] => PyNone
  | (k', v) :: params' => if String.eqb k k' then v else lookup_param params' k
  end.

Definition draw (shp : list nat) : M rng Param :=
  λ g, let '(d, g') := fresh shp g in (Ok {| shape := shp; data := d |}, g').

(** [torch.nn.Linear(in_features, out_features, *args, **kwargs)] *)
Definition torch_nn_Linear (n_in n_out : nat) (args : list pyval)
    (kwargs : list (string * pyval)) : M rng Linear :=
  params ← lift (bind_signature args kwargs);
  dt ← match lookup_param params "dtype" with
       | PyNone => mret default_dtype
       | PyDtype d => mret d
       | PyBool _ => raise TypeError
       end;
  w ← draw [n_out; n_in];
  b ← (if truthy (lookup_param params "bias")
       then p ← draw [n_out]; mret (Some p)
       else mret None);
  mret {| in_features := n_in; out_features := n_out;
          weight := w; bias := b; linear_dtype := dt |}.

(** [initializer(tensor)]: the tensor keeps its shape and gets new values. *)
Definition initialize (ini : initializer) (p : Param) : M rng Param :=
  λ g, let '(d, g') := ini (shape p) (data p) g in
       (Ok {| shape := shape p; data := d |}, g').

(** The same on an attribute that is [None] when the layer has no bias. *)
Definition initialize_opt (ini : initializer) (p : option Param)
    : M rng (option Param) :=
  match p with
  | Some p => p' ← initialize ini p; mret (Some p')
  | None => raise AttributeError
  end.

(** The parameters of a layer that was created with a bias and then
    initialised, and the generator after it. *)
Definition initial_parameters (wi bi : initializer) (n_in n_out : nat)
    (g : rng) : Param * Param * rng :=
  let '(w0, g1) := fresh [n_out; n_in] g in
  let '(b0, g2) := fresh [n_out] g1 in
  let '(w, g3) := wi [n_out; n_in] w0 g2 in
  let '(b, g4) := bi [n_out] b0 g3 in
  ({| shape := [n_out; n_in]; data := w |},
   {| shape := [n_out]; data := b |}, g4).

(** The framework's constructor wants ints for the two sizes. *)
Definition as_int (s : size) : result nat :=
  match s with
  | Scalar n => Ok n
  | Branched _ => Raise TypeError
  end.

(** *** Applying a layer *)

Definition dot (w x : list scalar) : scalar :=
  foldr sadd s0 (zip_with smul w x).

(** Row [o] of the weight matrix. *)
Definition weight_row (l : Linear) (o : nat) : list scalar :=
  take (in_features l) (drop (o * in_features l) (data (weight l))).

Definition neuron (l : Linear) (x : list scalar) (o : nat) : scalar :=
  match bias l with
  | Some b => sadd (dot (weight_row l o) x) (nth o (data b) s0)
  | None => dot (weight_row l o) x
  end.

Definition affine (l : Linear) (x : list scalar) : list scalar :=
  map (neuron l x) (seq 0 (out_features l)).

(** [linear(x)]: the framework refuses an input whose last dimension is not
    [in_features]. *)
Definition call_linear (l : Linear) (x : Tensor) : result Tensor :=
  if decide (width x = in_features l)
  then Ok {| width := out_features l; rows := map (affine l) (rows x) |}
  else Raise RuntimeError.

(** [activation(x)], elementwise. *)
Definition elementwise (f : scalar → scalar) (x : Tensor) : Tensor :=
  {| width := width x; rows := map (map f) (rows x) |}.

Definition hcat (a b : Tensor) : Tensor :=
  {| width := width a + width b; rows := zip_with app (rows a) (rows b) |}.

(** [torch.cat(ts, dim=1)]: the list is not empty and the tensors have the
    same number of rows. *)
Definition torch_cat1 (ts : list Tensor) : result Tensor :=
  match ts with
  | [] => Raise RuntimeError
  | t :: ts' =>
      if forallb (λ u, length (rows u) =? length (rows t)) ts'
      then Ok (foldl hcat t ts')
      else Raise RuntimeError
  end.

Definition well_formed (x : Tensor) : Prop :=
  Forall (λ r, length r = width x) (rows x).

End Framework.

(** [registry.get(name)] raises on a name it does not know. *)
Definition registered {St A} (o : option A) : M St A :=
  match o with
  | Some a => mret a
  | None => raise ValueError
  end.

(** ** class FNN *)

Module FNN.
Section FNN.
Context `{Backend}.

(** The object: [activation] and [linears] are set by [__init__]; the two
    transforms belong to the base class [NN], which starts them at [None]. *)
Record t := {
  activation : scalar → scalar;
  linears : list Linear;
  _input_transform : option (Tensor → Tensor);
  _output_transform : option (Tensor → Tensor → Tensor)
}.

(** Modelled from the spec: the base network abstraction [NN] is not part
    of the file; it offers the two optional transforms as pre- and
    post-transform callables, set after construction. *)
Definition apply_feature_transform (transform : Tensor → Tensor) (self : t)
    : t :=
  {| activation := activation self; linears := linears self;
     _input_transform := Some transform;
     _output_transform := _output_transform self |}.

Definition apply_output_transform (transform : Tensor → Tensor → Tensor)
    (self : t) : t :=
  {| activation := activation self; linears := linears self;
     _input_transform := _input_transform self;
     _output_transform := Some transform |}.

(** One turn of the loop of [initialize_layers], from the two sizes it
    reads: the layer is appended and then initialised in place through
    [self.linears[-1]], which is the layer just appended. *)
Definition new_linear (weight_initializer bias_initializer : initializer)
    (prev curr : size) (linears : list Linear) : M rng (list Linear) :=
  n_in ← lift (as_int prev);
  n_out ← lift (as_int curr);
  linear ← torch_nn_Linear n_in n_out [] [("dtype", PyDtype config_real)];
  w ← initialize weight_initializer (weight linear);
  b ← initialize_opt bias_initializer (bias linear);
  mret (linears ++ [ {| in_features := in_features linear;
                        out_features := out_features linear;
                        weight := w; bias := b;
                        linear_dtype := linear_dtype linear |} ]).

Definition add_linear (layer_sizes : list size)
    (weight_initializer bias_initializer : initializer)
    (i : nat) (linears : list Linear) : M rng (list Linear) :=
  prev ← lift (index layer_sizes (i - 1));
  curr ← lift (index layer_sizes i);
  new_linear weight_initializer bias_initializer prev curr linears.

Definition initialize_layers (layer_sizes : list size)
    (weight_initializer bias_initializer : initializer)
    : M rng (list Linear) :=
  for_each (range 1 (length layer_sizes))
    (add_linear layer_sizes weight_initializer bias_initializer) [].

Definition __init__ (layer_sizes : list size)
    (activation kernel_initializer : string) : M rng t :=
  act ← registered (activations_get activation);
  initializer ← registered (initializers_get kernel_initializer);
  initializer_zero ← registered (initializers_get "zeros");
  linears ← initialize_layers layer_sizes initializer initializer_zero;
  mret {| activation := act; linears := linears;
          _input_transform := None; _output_transform := None |}.

Definition forward (inputs : Tensor) : M t Tensor :=
  self ← get;
  let x := inputs in
  let x := match _input_transform self with
           | Some f => f x
           | None => x
           end in
  x ← for_each (slice_init (linears self))
        (λ linear x, y ← lift (call_linear linear x);
                     mret (elementwise (activation self) y)) x;
  last ← lift (index_neg (linears self) 1);
  x ← lift (call_linear last x);
  let x := match _output_transform self with
           | Some f => f inputs x
           | None => x
           end in
  mret x.

End FNN.
End FNN.

(** ** class PFNN(FNN) *)

Module PFNN.
Section PFNN.
Context `{Backend}.

(** An element of [self.layers]: a [torch.nn.Linear] or a
    [torch.nn.ModuleList] of them. *)
Inductive layer :=
  | Single (f : Linear)
  | ModuleList (fs : list Linear).

(** What [x] holds during the forward pass: a tensor or a Python list of
    tensors. *)
Inductive value :=
  | One (x : Tensor)
  | Many (xs : list Tensor).

(** The object; [initialize_layers] is overridden and sets [self.layers]. *)
Record t := {
  activation : scalar → scalar;
  layers : list layer;
  _input_transform : option (Tensor → Tensor);
  _output_transform : option (Tensor → Tensor → Tensor)
}.

(** Modelled from the spec: the transforms of the base network abstraction
    [NN], as for [FNN]. *)
Definition apply_feature_transform (transform : Tensor → Tensor) (self : t)
    : t :=
  {| activation := activation self; layers := layers self;
     _input_transform := Some transform;
     _output_transform := _output_transform self |}.

Definition apply_output_transform (transform : Tensor → Tensor → Tensor)
    (self : t) : t :=
  {| activation := activation self; layers := layers self;
     _input_transform := _input_transform self;
     _output_transform := Some transform |}.

Definition make_linear (weight_initializer bias_initializer : initializer)
    (n_input n_output : nat) : M rng Linear :=
  linear ← torch_nn_Linear n_input n_output [PyDtype config_real] [];
  w ← initialize weight_initializer (weight linear);
  b ← initialize_opt bias_initializer (bias linear);
  mret {| in_features := in_features linear;
          out_features := out_features linear;
          weight := w; bias := b; linear_dtype := linear_dtype linear |}.

(** The body of the loop over the interior entries, for one pair of
    consecutive sizes. *)
Definition interior_layer (weight_initializer bias_initializer : initializer)
    (n_output : nat) (prev_layer_size curr_layer_size : size) : M rng layer :=
  match curr_layer_size with
  | Branched curr =>
      _ ← assert (length curr =? n_output)
            "number of sub-layers should equal number of network outputs";
      match prev_layer_size with
      | Branched prev =>
          fs ← mapM (λ j, p ← lift (index prev j);
                          c ← lift (index curr j);
                          make_linear weight_initializer bias_initializer p c)
                 (range 0 n_output);
          mret (ModuleList fs)
      | Scalar prev =>
          fs ← mapM (λ j, c ← lift (index curr j);
                          make_linear weight_initializer bias_initializer
                            prev c)
                 (range 0 n_output);
          mret (ModuleList fs)
      end
  | Scalar curr =>
      _ ← assert (is_int prev_layer_size)
            "cannot rejoin parallel subnetworks after splitting";
      prev ← lift (as_int prev_layer_size);
      f ← make_linear weight_initializer bias_initializer prev curr;
      mret (Single f)
  end.

Definition new_layer (weight_initializer bias_initializer : initializer)
    (n_output : nat) (prev_layer_size curr_layer_size : size)
    (layers : list layer) : M rng (list layer) :=
  l ← interior_layer weight_initializer bias_initializer n_output
        prev_layer_size curr_layer_size;
  mret (layers ++ [l]).

Definition add_layer (layer_sizes : list size)
    (weight_initializer bias_initializer : initializer) (n_output : nat)
    (i : nat) (layers : list layer) : M rng (list layer) :=
  prev_layer_size ← lift (index layer_sizes (i - 1));
  curr_layer_size ← lift (index layer_sizes i);
  new_layer weight_initializer bias_initializer n_output
    prev_layer_size curr_layer_size layers.

(** The output layers, from [layer_sizes[-2]]. *)
Definition output_layer (weight_initializer bias_initializer : initializer)
    (n_output : nat) (penultimate : size) : M rng layer :=
  match penultimate with
  | Branched prev =>
      fs ← mapM (λ j, p ← lift (index prev j);
                      make_linear weight_initializer bias_initializer p 1)
             (range 0 n_output);
      mret (ModuleList fs)
  | Scalar prev =>
      f ← make_linear weight_initializer bias_initializer prev n_output;
      mret (Single f)
  end.

Definition initialize_layers (layer_sizes : list size)
    (weight_initializer bias_initializer : initializer)
    : M rng (list layer) :=
  _ ← assert (1 <? length layer_sizes) "must specify input and output sizes";
  first ← lift (index layer_sizes 0);
  _ ← assert (is_int first) "input size must be integer";
  last ← lift (index_neg layer_sizes 1);
  _ ← assert (is_int last) "output size must be integer";
  n_output ← lift (as_int last);
  layers ← for_each (range 1 (length layer_sizes - 1))
             (add_layer layer_sizes weight_initializer bias_initializer
                n_output) [];
  penultimate ← lift (index_neg layer_sizes 2);
  l ← output_layer weight_initializer bias_initializer n_output penultimate;
  mret (layers ++ [l]).

(** [__init__] is inherited from [FNN]; [self.initialize_layers] is the
    method above. *)
Definition __init__ (layer_sizes : list size)
    (activation kernel_initializer : string) : M rng t :=
  act ← registered (activations_get activation);
  initializer ← registered (initializers_get kernel_initializer);
  initializer_zero ← registered (initializers_get "zeros");
  layers ← initialize_layers layer_sizes initializer initializer_zero;
  mret {| activation := act; layers := layers;
          _input_transform := None; _output_transform := None |}.

(** One turn of the loop over [self.layers[:-1]]. *)
Definition hidden (activation : scalar → scalar) (l : layer) (x : value)
    : result value :=
  match l with
  | ModuleList fs =>
      match x with
      | Many xs =>
          ys ← mapM (λ '(f, x_), y ← call_linear f x_;
                                 mret (elementwise activation y))
                 (zip fs xs);
          mret (Many ys)
      | One x =>
          ys ← mapM (λ f, y ← call_linear f x;
                          mret (elementwise activation y)) fs;
          mret (Many ys)
      end
  | Single f =>
      match x with
      | One x => y ← call_linear f x; mret (One (elementwise activation y))
      | Many _ => Raise TypeError
      end
  end.

(** The output layers of the forward pass. *)
Definition output (last : layer) (x : value) : result Tensor :=
  match x with
  | Many xs =>
      match last with
      | ModuleList fs =>
          ys ← mapM (λ '(f, x_), call_linear f x_) (zip fs xs);
          torch_cat1 ys
      | Single _ => Raise TypeError
      end
  | One x =>
      match last with
      | Single f => call_linear f x
      | ModuleList _ => Raise NotImplementedError
      end
  end.

Definition forward (inputs : Tensor) : M t Tensor :=
  self ← get;
  let x := inputs in
  let x := match _input_transform self with
           | Some f => f x
           | None => x
           end in
  x ← for_each (slice_init (layers self))
        (λ layer x, lift (hidden (activation self) layer x)) (One x);
  last ← lift (index_neg (layers self) 1);
  x ← lift (output last x);
  let x := match _output_transform self with
           | Some f => f inputs x
           | None => x
           end in
  mret x.

End PFNN.
End PFNN.

(** ** A backend to run the model on

    Integers for the values, a linear congruential generator for the random
    numbers, double precision configured over a single-precision default. *)

Module Zbackend.

Definition lcg (g : Z) : Z := ((g * 75 + 74) mod 65537)%Z.

Fixpoint draws (n : nat) (g : Z) : list Z * Z :=
  match n with
  | 0 => ([], g)
  | S n' =>
      let g1 := lcg g in
      let '(l, g2) := draws n' g1 in
      ((g1 mod 7 - 3)%Z :: l, g2)
  end.

Definition zeros_ (shp : list nat) (d : list Z) (g : Z) : list Z * Z :=
  (map (λ _, 0%Z) d, g).

Definition uniform_ (shp : list nat) (d : list Z) (g : Z) : list Z * Z :=
  draws (length d) g.

Definition activations (name : string) : option (Z → Z) :=
  if String.eqb name "relu" then Some (Z.max 0)
  else if String.eqb name "linear" then Some (λ z, z)
  else None.

Definition initializers (name : string)
    : option (list nat → list Z → Z → list Z * Z) :=
  if String.eqb name "zeros" then Some zeros_
  else if String.eqb name "uniform" then Some uniform_
  else None.

Definition backend : Backend :=
  {| scalar := Z; s0 := 0%Z; sadd := Z.add; smul := Z.mul;
     rng := Z;
     fresh := λ shp g, draws (foldr Nat.mul 1 shp) g;
     default_dtype := float32;
     config_real := float64;
     activations_get := activations;
     initializers_get := initializers |}.

(** The same backend with single precision configured, which is the
    default precision of the framework. *)
Definition single : Backend :=
  {| scalar := Z; s0 := 0%Z; sadd := Z.add; smul := Z.mul;
     rng := Z;
     fresh := λ shp g, draws (foldr Nat.mul 1 shp) g;
     default_dtype := float32;
     config_real := float32;
     activations_get := activations;
     initializers_get := initializers |}.

(** A batch of two points of the plane. *)
Definition points : list (list Z) := [[1; 2]; [-3; 4]]%Z.

Definition batch : @Tensor backend := @Build_Tensor backend 2 points.

End Zbackend.

(** ** The forward pass in the words of the specification *)

Section Described.
Context `{Backend}.

(** Linear transform, then nonlinearity, for each layer but the last. *)
Fixpoint alternate (act : scalar → scalar) (hidden : list Linear)
    (x : Tensor) : result Tensor :=
  match hidden with
  | [] => Ok x
  | l :: hidden' =>
      y ← call_linear l x; alternate act hidden' (elementwise act y)
  end.

(** Optional input transform, the alternation, the last linear transform
    unactivated, the optional output transform on the original input and
    the network output. *)
Definition described_forward (act : scalar → scalar)
    (tin : option (Tensor → Tensor))
    (tout : option (Tensor → Tensor → Tensor))
    (hidden : list Linear) (last : Linear) (inputs : Tensor)
    : result Tensor :=
  x ← alternate act hidden
        (match tin with Some f => f inputs | None => inputs end);
  y ← call_linear last x;
  Ok (match tout with Some g => g inputs y | None => y end).

End Described.

(** ** Notions the properties are stated with *)

Section Derived.
Context `{Backend}.

(** The layer with the given sizes, parameters and dtype, bias present. *)
Definition layer_with (n_in n_out : nat) (wb : Param * Param) (d : dtype)
    : Linear :=
  {| in_features := n_in; out_features := n_out;
     weight := wb.1; bias := Some wb.2; linear_dtype := d |}.

(** The sizes and parameters of the layers that a run of constructions
    along the sizes [a :: ns] creates, in order, and the generator after
    them. *)
Fixpoint chain_parameters (wi bi : initializer) (a : nat) (ns : list nat)
    (g : rng) : list (nat * nat * (Param * Param)) * rng :=
  match ns with
  | [] => ([], g)
  | b :: ns' =>
      let '(w, c, g1) := initial_parameters wi bi a b g in
      let '(rest, g2) := chain_parameters wi bi b ns' g1 in
      ((a, b, (w, c)) :: rest, g2)
  end.

Definition layer_of (d : dtype) (p : nat * nat * (Param * Param)) : Linear :=
  layer_with p.1.1 p.1.2 p.2 d.

(** Layers that fit one after the other, from width [a] to width [b]. *)
Fixpoint chained (a : nat) (ls : list Linear) (b : nat) : Prop :=
  match ls with
  | [] => a = b
  | l :: ls' => in_features l = a ∧ chained (out_features l) ls' b
  end.

(** The sizes of a layer. *)
Definition linear_dims (l : Linear) : nat * nat :=
  (in_features l, out_features l).

(** What every layer of a [PFNN] has: the default dtype and a bias. *)
Definition default_built (l : Linear) : Prop :=
  linear_dtype l = default_dtype ∧ is_Some (bias l).

(** The input sizes of [n] sub-layers that follow a layer of size [prev]. *)
Definition branch_inputs (n : nat) (prev : size) : list nat :=
  match prev with
  | Scalar p => replicate n p
  | Branched ps => ps
  end.

(** A size the loop can come from: an int, or one sub-layer per output. *)
Definition branches_match (n : nat) (s : size) : Prop :=
  match s with
  | Scalar _ => True
  | Branched ps => length ps = n
  end.

(** The layer that stands between the sizes [prev] and [curr]. *)
Definition interior_fits (n : nat) (prev curr : size) (l : PFNN.layer)
    : Prop :=
  match curr with
  | Scalar c =>
      ∃ p f, prev = Scalar p ∧ l = PFNN.Single f ∧ linear_dims f = (p, c) ∧
             default_built f
  | Branched cs =>
      ∃ fs, l = PFNN.ModuleList fs ∧ length cs = n ∧
            branches_match n prev ∧
            linear_dims <$> fs = zip (branch_inputs n prev) cs ∧
            Forall default_built fs
  end.

(** The layers that stand between the consecutive sizes of
    [prev :: mid]. *)
Fixpoint interior_chain (n : nat) (prev : size) (mid : list size)
    (ls : list PFNN.layer) : Prop :=
  match mid, ls with
  | [], [] => True
  | curr :: mid', l :: ls' =>
      interior_fits n prev curr l ∧ interior_chain n curr mid' ls'
  | _, _ => False
  end.

(** The output layer after a layer of size [prev]. *)
Definition output_fits (n : nat) (prev : size) (l : PFNN.layer) : Prop :=
  match prev with
  | Scalar p =>
      ∃ f, l = PFNN.Single f ∧ linear_dims f = (p, n) ∧ default_built f
  | Branched ps =>
      ∃ fs, l = PFNN.ModuleList fs ∧
            linear_dims <$> fs = zip ps (replicate n 1) ∧
            Forall default_built fs
  end.

(** The first assertion of the loop over the interior sizes that fails, if
    one does. *)
Fixpoint interior_verdict (n : nat) (prev : size) (mid : list size)
    : option string :=
  match mid with
  | [] => None
  | curr :: mid' =>
      match curr with
      | Branched cs =>
          if length cs =? n then interior_verdict n curr mid'
          else Some "number of sub-layers should equal number of network outputs"
      | Scalar _ =>
          if is_int prev then interior_verdict n curr mid'
          else Some "cannot rejoin parallel subnetworks after splitting"
      end
  end.

(** The layers inside an element of [self.layers]. *)
Definition linears_of (l : PFNN.layer) : list Linear :=
  match l with
  | PFNN.Single f => [f]
  | PFNN.ModuleList fs => fs
  end.

(** An object with the two transforms set, or not. *)
Definition FNN_with (tin : option (Tensor → Tensor))
    (tout : option (Tensor → Tensor → Tensor)) (self : FNN.t) : FNN.t :=
  {| FNN.activation := FNN.activation self;
     FNN.linears := FNN.linears self;
     FNN._input_transform := tin; FNN._output_transform := tout |}.

Definition PFNN_with (tin : option (Tensor → Tensor))
    (tout : option (Tensor → Tensor → Tensor)) (self : PFNN.t) : PFNN.t :=
  {| PFNN.activation := PFNN.activation self;
     PFNN.layers := PFNN.layers self;
     PFNN._input_transform := tin; PFNN._output_transform := tout |}.

(** What the layers see: the input after the optional transform. *)
Definition transformed (tin : option (Tensor → Tensor)) (inputs : Tensor)
    : Tensor :=
  match tin with Some f => f inputs | None => inputs end.

(** A value of the forward pass after a layer of size [s], for a batch of
    [r] rows. *)
Definition value_fits (r : nat) (s : size) (v : PFNN.value) : Prop :=
  match s with
  | Scalar p => ∃ x, v = PFNN.One x ∧ width x = p ∧ length (rows x) = r
  | Branched ps =>
      ∃ xs, v = PFNN.Many xs ∧ width <$> xs = ps ∧
            Forall (λ x, length (rows x) = r) xs
  end.

(** A layer whose parameters have the shapes that its sizes ask for. *)
Definition well_shaped (l : Linear) : Prop :=
  shape (weight l) = [out_features l; in_features l] ∧
  ∃ b, bias l = Some b ∧ shape b = [out_features l].

(** A layer whose weights satisfy [PW] and whose biases satisfy [PB]. *)
Definition parameters_satisfy (PW PB : list scalar → Prop) (l : Linear)
    : Prop :=
  PW (data (weight l)) ∧ ∃ b, bias l = Some b ∧ PB (data b).

(** What the output transform makes of the output, if there is one. *)
Definition finished (tout : option (Tensor → Tensor → Tensor))
    (inputs y : Tensor) : Tensor :=
  match tout with Some f => f inputs y | None => y end.

(** A layer as the constructions leave it: created with a bias for some
    sizes, then initialised by [wi] and [bi], from some state of the
    generator. *)
Definition created (wi bi : initializer) (d : dtype) (l : Linear) : Prop :=
  ∃ a b g, l = layer_with a b (initial_parameters wi bi a b g).1 d.

(** The [j]-th sub-layers of a run of lists of sub-layers: the hidden
    layers of the [j]-th sub-network. *)
Definition column (j : nat) (fss : list (list Linear)) : list Linear :=
  omap (λ fs, fs !! j) fss.

End Derived.

(** Unfolds the monad of a computation whose steps are known. *)
Ltac run_m :=
  repeat (progress (unfold mbind, M_bind, mret, M_ret, lift, raise; cbn)).

(** ** Reasoning about computations *)

Section Reasoning.
Context {St : Type}.

Lemma bind_run {A B} (m : M St A) (f : A → M St B) s :
  (m ≫= f) s =
  match m s with
  | (Ok a, s') => f a s'
  | (Raise e, s') => (Raise e, s')
  end.
Proof. reflexivity. Qed.

Lemma bind_ok {A B} (m : M St A) (f : A → M St B) s a s' :
  m s = (Ok a, s') → (m ≫= f) s = f a s'.
Proof. intros E. rewrite bind_run, E. reflexivity. Qed.

Lemma bind_raise {A B} (m : M St A) (f : A → M St B) s e s' :
  m s = (Raise e, s') → (m ≫= f) s = (Raise e, s').
Proof. intros E. rewrite bind_run, E. reflexivity. Qed.

Lemma assert_true_bind {B} msg (f : unit → M St B) s :
  (assert true msg ≫= f) s = f tt s.
Proof. reflexivity. Qed.

Lemma ret_bind {A B} (a : A) (f : A → M St B) s :
  (mret a ≫= f) s = f a s.
Proof. reflexivity. Qed.

Lemma lift_ok_bind {A B} (a : A) (f : A → M St B) s :
  (lift (Ok a) ≫= f) s = f a s.
Proof. reflexivity. Qed.

Lemma bind_inv {A B} (m : M St A) (f : A → M St B) s b s2 :
  (m ≫= f) s = (Ok b, s2) →
  ∃ a s1, m s = (Ok a, s1) ∧ f a s1 = (Ok b, s2).
Proof.
  rewrite bind_run. destruct (m s) as [[a|e] s1]; intros E.
  - eauto.
  - discriminate.
Qed.

Lemma returns_intro {A} (m : M St A) s a s' (Q : A → St → Prop) :
  m s = (Ok a, s') → Q a s' → returns m s Q.
Proof. unfold returns. intros ->. done. Qed.

Lemma returns_elim {A} (m : M St A) s (Q : A → St → Prop) :
  returns m s Q → ∃ a s', m s = (Ok a, s') ∧ Q a s'.
Proof.
  unfold returns. destruct (m s) as [[a|e] s']; [eauto | done].
Qed.

Lemma returns_det {A} (m : M St A) s (Q : A → St → Prop) a s' :
  returns m s Q → m s = (Ok a, s') → Q a s'.
Proof. unfold returns. intros Hr E. rewrite E in Hr. done. Qed.

Lemma returns_eq {A} (m m' : M St A) s (Q : A → St → Prop) :
  m s = m' s → returns m' s Q → returns m s Q.
Proof. unfold returns. by intros ->. Qed.

Lemma returns_mono {A} (m : M St A) s (Q Q' : A → St → Prop) :
  returns m s Q → (∀ a s', Q a s' → Q' a s') → returns m s Q'.
Proof.
  unfold returns. destruct (m s) as [[a|e] s']; [auto | done].
Qed.

Lemma returns_and {A} (m : M St A) s (Q Q' : A → St → Prop) :
  returns m s Q → returns m s Q' → returns m s (λ a s', Q a s' ∧ Q' a s').
Proof.
  unfold returns. destruct (m s) as [[a|e] s']; [auto | done].
Qed.

Lemma returns_ret {A} (a : A) s (Q : A → St → Prop) :
  Q a s → returns (mret a) s Q.
Proof. done. Qed.

Lemma returns_bind {A B} (m : M St A) (f : A → M St B) s
    (Q : B → St → Prop) :
  returns m s (λ a s', returns (f a) s' Q) → returns (m ≫= f) s Q.
Proof.
  unfold returns at 1 3. rewrite bind_run.
  destruct (m s) as [[a|e] s']; [done | done].
Qed.

Lemma returns_lift {A} (r : result A) a s (Q : A → St → Prop) :
  r = Ok a → Q a s → returns (lift r) s Q.
Proof. intros -> HQ. done. Qed.

Lemma returns_assert (c : bool) msg s (Q : unit → St → Prop) :
  c = true → Q tt s → returns (assert c msg) s Q.
Proof. intros -> HQ. done. Qed.

Lemma returns_mapM {A B} (f : A → M St B) (P : A → B → Prop) l s :
  (∀ x s', x ∈ l → returns (f x) s' (λ y _, P x y)) →
  returns (mapM f l) s (λ ys _, Forall2 P l ys).
Proof.
  revert s. induction l as [|x l IH]; intros s Hf.
  - apply returns_ret. constructor.
  - simpl. apply returns_bind.
    eapply returns_mono; [apply (Hf x s); left |].
    intros y s1 Hy. simpl. apply returns_bind.
    eapply returns_mono.
    + apply IH. intros x' s' Hx'. apply Hf. by right.
    + intros ys s2 Hys. apply returns_ret. by constructor.
Qed.

Lemma readonly_ret {A} (a : A) : readonly (mret a : M St A).
Proof. intros s. done. Qed.

Lemma readonly_lift {A} (r : result A) : readonly (lift r : M St A).
Proof. intros s. done. Qed.

Lemma readonly_get : readonly (get : M St St).
Proof. intros s. done. Qed.

Lemma readonly_bind {A B} (m : M St A) (f : A → M St B) :
  readonly m → (∀ a, readonly (f a)) → readonly (m ≫= f).
Proof.
  intros Hm Hf s. rewrite bind_run. specialize (Hm s).
  destruct (m s) as [[a|e] s']; simpl in *; subst s'.
  - apply Hf.
  - done.
Qed.

Lemma readonly_for_each {A X} (xs : list X) (body : X → A → M St A) acc :
  (∀ x a, readonly (body x a)) → readonly (for_each xs body acc).
Proof.
  intros Hb. revert acc. induction xs as [|x xs IH]; intros acc; simpl.
  - apply readonly_ret.
  - apply readonly_bind; [apply Hb | apply IH].
Qed.

Lemma for_each_ext {A X} (xs : list X) (body body' : X → A → M St A) acc s :
  (∀ x a s', body x a s' = body' x a s') →
  for_each xs body acc s = for_each xs body' acc s.
Proof.
  intros Hb. revert acc s. induction xs as [|x xs IH]; intros acc s; simpl.
  - done.
  - rewrite !bind_run, Hb.
    destruct (body' x acc s) as [[a|e] s']; [apply IH | done].
Qed.

(** A loop whose body is a pure function that may raise. *)
Lemma for_each_lift {A X} (xs : list X) (body : X → A → result A) acc s :
  (for_each xs (λ x a, lift (body x a)) acc : M St A) s =
  (for_each_pure xs body acc, s).
Proof.
  revert acc. induction xs as [|x xs IH]; intros acc; simpl.
  - done.
  - rewrite bind_run. unfold lift at 1.
    destruct (body x acc) as [a|e]; simpl; [apply IH | done].
Qed.

End Reasoning.

(** ** Python indexing *)

Section Indexing.
Context {A : Type}.
Implicit Types l : list A.

Lemma index_neg_last l x : index_neg (l ++ [x]) 1 = Ok x.
Proof.
  unfold index_neg, index. rewrite length_app. simpl.
  destruct (decide (1 ≤ length l + 1)) as [_|?]; [|lia].
  replace (length l + 1 - 1) with (length l) by lia.
  rewrite list_lookup_middle; done.
Qed.

Lemma index_neg_nil k : 0 < k → index_neg (@nil A) k = Raise IndexError.
Proof.
  intros Hk. unfold index_neg. simpl.
  destruct (decide (k ≤ 0)); [lia | done].
Qed.

Lemma slice_init_last l x : slice_init (l ++ [x]) = l.
Proof.
  unfold slice_init. rewrite length_app. simpl.
  replace (length l + 1 - 1) with (length l) by lia.
  by rewrite take_app_length.
Qed.

Lemma index_middle l x l' : index (l ++ x :: l') (length l) = Ok x.
Proof. unfold index. rewrite list_lookup_middle; done. Qed.

Lemma index_lookup l i x : l !! i = Some x → index l i = Ok x.
Proof. unfold index. by intros ->. Qed.

Lemma index_ok_inv l i x : index l i = Ok x → l !! i = Some x.
Proof. unfold index. destruct (l !! i); [by intros [= ->] | done]. Qed.

End Indexing.

(** ** Loops over indices and loops over pairs *)

Lemma for_each_range_pairs {St A X} (body : X → X → A → M St A)
    (pre : list X) (x : X) (rest suf : list X) acc s :
  for_each (seq (S (length pre)) (length rest))
    (λ i a, p ← lift (index (pre ++ x :: rest ++ suf) (i - 1));
            c ← lift (index (pre ++ x :: rest ++ suf) i);
            body p c a) acc s
  = for_pairs x rest body acc s.
Proof.
  revert pre x acc s. induction rest as [|c rest IH]; intros pre x acc s.
  - done.
  - cbn [length seq for_each for_pairs].
    rewrite bind_run. rewrite (bind_run (body x c acc)).
    replace (S (length pre) - 1) with (length pre) by lia.
    rewrite (bind_ok _ _ _ x s); [|by unfold lift; rewrite index_middle].
    rewrite (bind_ok _ _ _ c s).
    2:{ unfold lift. f_equal.
        change (pre ++ x :: (c :: rest) ++ suf)
          with (pre ++ [x] ++ c :: rest ++ suf).
        rewrite app_assoc.
        replace (S (length pre)) with (length (pre ++ [x]))
          by (rewrite length_app; simpl; lia).
        apply index_middle. }
    destruct (body x c acc s) as [[a|e] s']; [|done].
    specialize (IH (pre ++ [x]) c a s').
    rewrite length_app in IH. simpl in IH.
    replace (length pre + 1) with (S (length pre)) in IH by lia.
    rewrite <- IH.
    replace ((pre ++ [x]) ++ c :: rest ++ suf)
      with (pre ++ x :: (c :: rest) ++ suf)
      by (by rewrite <- app_assoc).
    done.
Qed.

(** ** Creating one layer *)

Section Creation.
Context `{Backend}.

Lemma bind_signature_keyword d :
  bind_signature [] [("dtype", PyDtype d)]
  = Ok [("bias", PyBool true); ("device", PyNone); ("dtype", PyDtype d)].
Proof. reflexivity. Qed.

Lemma bind_signature_positional d :
  bind_signature [PyDtype d] []
  = Ok [("bias", PyDtype d); ("device", PyNone); ("dtype", PyNone)].
Proof. reflexivity. Qed.

Lemma new_linear_run wi bi a b acc g :
  FNN.new_linear wi bi (Scalar a) (Scalar b) acc g
  = let '(w, c, g') := initial_parameters wi bi a b g in
    (Ok (acc ++ [layer_with a b (w, c) config_real]), g').
Proof.
  unfold FNN.new_linear, torch_nn_Linear, initial_parameters, layer_with.
  rewrite bind_signature_keyword.
  unfold initialize_opt, initialize, draw; run_m.
  destruct (fresh [b; a] g) as [w0 g1]. cbn.
  destruct (fresh [b] g1) as [b0 g2]. cbn.
  destruct (wi [b; a] w0 g2) as [w g3]. cbn.
  destruct (bi [b] b0 g3) as [c g4]. reflexivity.
Qed.

Lemma new_linear_type_error wi bi p c acc g :
  is_int p && is_int c = false →
  FNN.new_linear wi bi p c acc g = (Raise TypeError, g).
Proof. destruct p, c; done. Qed.

Lemma make_linear_run wi bi a b g :
  PFNN.make_linear wi bi a b g
  = let '(w, c, g') := initial_parameters wi bi a b g in
    (Ok (layer_with a b (w, c) default_dtype), g').
Proof.
  unfold PFNN.make_linear, torch_nn_Linear, initial_parameters, layer_with.
  rewrite bind_signature_positional.
  unfold initialize_opt, initialize, draw; run_m.
  destruct (fresh [b; a] g) as [w0 g1]. cbn.
  destruct (fresh [b] g1) as [b0 g2]. cbn.
  destruct (wi [b; a] w0 g2) as [w g3]. cbn.
  destruct (bi [b] b0 g3) as [c g4]. reflexivity.
Qed.

End Creation.

(** ** Construction of the fully-connected network *)

Section FNN_construction.
Context `{Backend}.
Implicit Types (wi bi : initializer) (g : rng).

Lemma FNN_initialize_nil wi bi g :
  FNN.initialize_layers [] wi bi g = (Ok [], g).
Proof. reflexivity. Qed.

Lemma FNN_initialize_pairs wi bi x rest g :
  FNN.initialize_layers (x :: rest) wi bi g
  = for_pairs x rest (FNN.new_linear wi bi) [] g.
Proof.
  unfold FNN.initialize_layers, range. cbn [length].
  replace (S (length rest) - 1) with (length rest) by lia.
  rewrite <- (for_each_range_pairs (FNN.new_linear wi bi) [] x rest []).
  rewrite app_nil_r. reflexivity.
Qed.

Lemma FNN_pairs_scalar wi bi a ns acc g :
  for_pairs (Scalar a) (Scalar <$> ns) (FNN.new_linear wi bi) acc g
  = let '(ps, g') := chain_parameters wi bi a ns g in
    (Ok (acc ++ (layer_of config_real <$> ps)), g').
Proof.
  revert a acc g. induction ns as [|b ns IH]; intros a acc g.
  - cbn. by rewrite app_nil_r.
  - cbn [fmap list_fmap for_pairs chain_parameters].
    rewrite bind_run, new_linear_run.
    destruct (initial_parameters wi bi a b g) as [[w c] g1].
    rewrite IH.
    destruct (chain_parameters wi bi b ns g1) as [ps g2].
    cbn. by rewrite <- app_assoc.
Qed.

(** A size that is not an int stops the construction with the framework's
    type error, whatever came before. *)
Lemma FNN_pairs_branched wi bi x rest acc g :
  forallb is_int (x :: rest) = false → rest ≠ [] →
  ∃ g', for_pairs x rest (FNN.new_linear wi bi) acc g = (Raise TypeError, g').
Proof.
  revert x acc g. induction rest as [|c rest IH]; intros x acc g Hb Hne.
  - done.
  - cbn [for_pairs]. rewrite bind_run.
    destruct (is_int x && is_int c) eqn:E.
    + destruct x as [a|]; [|done]. destruct c as [b|]; [|done].
      rewrite new_linear_run.
      destruct (initial_parameters wi bi a b g) as [[w c] g1].
      destruct rest as [|c' rest].
      * done.
      * apply IH; [|done]. cbn in Hb |- *. exact Hb.
    + rewrite new_linear_type_error by done. eauto.
Qed.

Lemma chain_parameters_length wi bi a ns g :
  length (chain_parameters wi bi a ns g).1 = length ns.
Proof.
  revert a g. induction ns as [|b ns IH]; intros a g; cbn; [done|].
  destruct (initial_parameters wi bi a b g) as [[w c] g1].
  specialize (IH b g1).
  destruct (chain_parameters wi bi b ns g1) as [ps g2]. cbn in *. lia.
Qed.

Lemma last_cons_default {A} (b a : A) (ns : list A) :
  List.last (b :: ns) a = List.last ns b.
Proof.
  revert a b. induction ns as [|c ns IH]; intros a b; [done|].
  change (List.last (b :: c :: ns) a) with (List.last (c :: ns) a).
  by rewrite !IH.
Qed.

Lemma chain_parameters_chained wi bi d a ns g :
  chained a (layer_of d <$> (chain_parameters wi bi a ns g).1)
    (List.last ns a).
Proof.
  revert a g. induction ns as [|b ns IH]; intros a g; [done|].
  rewrite last_cons_default. cbn [chain_parameters].
  destruct (initial_parameters wi bi a b g) as [[w c] g1].
  specialize (IH b g1).
  destruct (chain_parameters wi bi b ns g1) as [ps g2]. cbn in *.
  split; done.
Qed.

Lemma chain_parameters_snoc wi bi a ns n g :
  chain_parameters wi bi a (ns ++ [n]) g
  = let '(ps, g1) := chain_parameters wi bi a ns g in
    let '(w, c, g2) := initial_parameters wi bi (List.last ns a) n g1 in
    (ps ++ [(List.last ns a, n, (w, c))], g2).
Proof.
  revert a g. induction ns as [|b ns IH]; intros a g.
  - cbn. destruct (initial_parameters wi bi a n g) as [[w c] g1]. done.
  - cbn [app chain_parameters].
    destruct (initial_parameters wi bi a b g) as [[w c] g1].
    rewrite IH.
    destruct (chain_parameters wi bi b ns g1) as [ps g2].
    rewrite last_cons_default.
    destruct (initial_parameters wi bi (List.last ns b) n g2) as [[w' c'] g3].
    done.
Qed.

End FNN_construction.

(** ** The forward pass of the fully-connected network *)

Section FNN_forward.
Context `{Backend}.

Lemma alternate_for_each_pure act hidden x :
  for_each_pure hidden
    (λ l x, y ← call_linear l x; mret (elementwise act y)) x
  = alternate act hidden x.
Proof.
  revert x. induction hidden as [|l hidden IH]; intros x; cbn; [done|].
  destruct (call_linear l x) as [y|e]; cbn; [apply IH | done].
Qed.

Lemma FNN_hidden_loop act hidden x (s : FNN.t) :
  for_each hidden
    (λ linear x, y ← lift (call_linear linear x);
                 mret (elementwise act y)) x s
  = (alternate act hidden x, s).
Proof.
  rewrite <- alternate_for_each_pure, <- for_each_lift.
  apply for_each_ext. intros l a s'.
  rewrite bind_run. unfold lift. by destruct (call_linear l a).
Qed.

Lemma FNN_forward_run (self : FNN.t) hidden last inputs :
  FNN.linears self = hidden ++ [last] →
  FNN.forward inputs self
  = (described_forward (FNN.activation self) (FNN._input_transform self)
       (FNN._output_transform self) hidden last inputs, self).
Proof.
  intros Hl. unfold FNN.forward, described_forward.
  rewrite bind_run. unfold get at 1. cbv zeta.
  rewrite bind_run, Hl, slice_init_last, FNN_hidden_loop.
  destruct (alternate _ hidden _) as [x|e]; [|done].
  rewrite bind_run, index_neg_last. unfold lift at 1.
  rewrite bind_run. unfold lift at 1. cbn.
  destruct (call_linear last x) as [y|e]; done.
Qed.

Lemma FNN_forward_no_layer (self : FNN.t) inputs :
  FNN.linears self = [] →
  FNN.forward inputs self = (Raise IndexError, self).
Proof.
  intros Hl. unfold FNN.forward.
  rewrite bind_run. unfold get at 1. cbv zeta.
  rewrite bind_run, Hl. reflexivity.
Qed.

Lemma FNN_forward_readonly inputs : readonly (FNN.forward inputs).
Proof.
  unfold FNN.forward. apply readonly_bind; [apply readonly_get|].
  intros self. cbv zeta.
  apply readonly_bind.
  { apply readonly_for_each. intros l x.
    apply readonly_bind; [apply readonly_lift|].
    intros y. apply readonly_ret. }
  intros x. apply readonly_bind; [apply readonly_lift|].
  intros last. apply readonly_bind; [apply readonly_lift|].
  intros y. apply readonly_ret.
Qed.

(** The width along a chain of layers. *)
Lemma alternate_chained act hidden a b x :
  chained a hidden b → width x = a →
  ∃ y, alternate act hidden x = Ok y ∧ width y = b ∧
       length (rows y) = length (rows x).
Proof.
  revert a x. induction hidden as [|l hidden IH]; intros a x Hc Hx.
  - cbn in *. exists x. by subst.
  - destruct Hc as [Hin Hc]. cbn. unfold call_linear.
    destruct (decide (width x = in_features l)) as [_|Hne]; [|congruence].
    cbn.
    destruct (IH (out_features l)
                (elementwise act
                   {| width := out_features l;
                      rows := map (affine l) (rows x) |}) Hc eq_refl)
      as (y & Hy & Hw & Hr).
    exists y. split; [done|]. split; [done|].
    rewrite Hr. cbn. by rewrite !length_map.
Qed.

Lemma call_linear_shape l x y :
  call_linear l x = Ok y →
  width y = out_features l ∧ well_formed y ∧
  length (rows y) = length (rows x).
Proof.
  unfold call_linear. destruct (decide _); [|done]. intros [= <-].
  cbn. split; [done|]. split; [|by rewrite length_map].
  unfold well_formed. cbn. apply Forall_forall. intros r Hr.
  apply list_elem_of_fmap in Hr as (r0 & -> & _).
  unfold affine. by rewrite length_map, length_seq.
Qed.

End FNN_forward.

(** ** Construction of the parallel network *)

Section PFNN_construction.
Context `{Backend}.
Implicit Types (wi bi : initializer) (g : rng).

(** A comprehension over [range(n)] that reads a list by index is a
    comprehension over the list. *)
Lemma mapM_seq_lookup {St X B} (xs : list X) (F : X → M St B)
    (G : nat → M St B) k s :
  (∀ j x s', xs !! j = Some x → G (k + j) s' = F x s') →
  mapM G (seq k (length xs)) s = mapM F xs s.
Proof.
  revert k s. induction xs as [|x xs IH]; intros k s HG; [done|].
  cbn [length seq mapM]. rewrite !bind_run.
  rewrite <- (HG 0 x s eq_refl). rewrite Nat.add_0_r.
  destruct (G k s) as [[y|e] s1]; [|done].
  rewrite !bind_run. rewrite (IH (S k) s1).
  - done.
  - intros j x' s' Hj. rewrite <- (HG (S j) x' s' Hj).
    f_equal. lia.
Qed.

Lemma make_linear_returns wi bi a b g :
  returns (PFNN.make_linear wi bi a b) g
    (λ f _, linear_dims f = (a, b) ∧ default_built f).
Proof.
  unfold returns. rewrite make_linear_run.
  destruct (initial_parameters wi bi a b g) as [[w c] g'].
  split; [done|]. split; [done|]. cbn. eauto.
Qed.

Lemma Forall2_linear_dims (pcs : list (nat * nat)) (fs : list Linear) :
  Forall2 (λ pc f, linear_dims f = pc ∧ default_built f) pcs fs →
  linear_dims <$> fs = pcs ∧ Forall default_built fs.
Proof.
  induction 1 as [|pc f pcs fs [Hd Hb] _ [IH1 IH2]]; [done|].
  cbn. rewrite Hd, IH1. split; [done|]. by constructor.
Qed.

Lemma make_linears_returns wi bi (pcs : list (nat * nat)) g :
  returns (mapM (λ pc, PFNN.make_linear wi bi pc.1 pc.2) pcs) g
    (λ fs _, linear_dims <$> fs = pcs ∧ Forall default_built fs).
Proof.
  eapply returns_mono.
  - apply (returns_mapM _
             (λ pc f, linear_dims f = pc ∧ default_built f)).
    intros [a b] s' _. apply make_linear_returns.
  - intros fs s1 HF. by apply Forall2_linear_dims.
Qed.

Lemma branch_inputs_length n prev :
  branches_match n prev → length (branch_inputs n prev) = n.
Proof. destruct prev; cbn; [by rewrite length_replicate | done]. Qed.

(** The two comprehensions of the loop body, over the pairs of sizes. *)
Lemma interior_comprehension wi bi n prev cs g :
  branches_match n prev → length cs = n →
  match prev with
  | Branched ps =>
      mapM (λ j, p ← lift (index ps j);
                 c ← lift (index cs j);
                 PFNN.make_linear wi bi p c) (range 0 n) g
  | Scalar p =>
      mapM (λ j, c ← lift (index cs j);
                 PFNN.make_linear wi bi p c) (range 0 n) g
  end
  = mapM (λ pc, PFNN.make_linear wi bi pc.1 pc.2)
      (zip (branch_inputs n prev) cs) g.
Proof.
  intros Hp Hc. unfold range. rewrite Nat.sub_0_r.
  assert (Hn : n = length (zip (branch_inputs n prev) cs)).
  { rewrite length_zip_with, branch_inputs_length by done. lia. }
  destruct prev as [p|ps]; rewrite Hn at 1; apply mapM_seq_lookup;
    intros j [a b] s' Hj; cbn [Nat.add];
    apply lookup_zip_with_Some in Hj as (a' & b' & [= <- <-] & Ha & Hb).
  - cbn in Ha. apply lookup_replicate in Ha as [-> _].
    rewrite bind_run. unfold lift at 1.
    by rewrite (index_lookup _ _ _ Hb).
  - cbn in Ha. rewrite bind_run. unfold lift at 1.
    rewrite (index_lookup _ _ _ Ha).
    rewrite bind_run. unfold lift at 1.
    by rewrite (index_lookup _ _ _ Hb).
Qed.

Lemma interior_layer_branched wi bi n prev cs g :
  branches_match n prev → length cs = n →
  returns (PFNN.interior_layer wi bi n prev (Branched cs)) g
    (λ l _, interior_fits n prev (Branched cs) l).
Proof.
  intros Hp Hc. unfold PFNN.interior_layer.
  apply returns_bind. apply returns_assert; [by apply Nat.eqb_eq|].
  pose proof (interior_comprehension wi bi n prev cs g Hp Hc) as E.
  pose proof (make_linears_returns wi bi (zip (branch_inputs n prev) cs) g)
    as R.
  destruct prev as [p|ps]; apply returns_bind;
    (eapply returns_eq; [exact E|]); (eapply returns_mono; [exact R|]);
    intros fs s' [Hd Hb]; apply returns_ret; exists fs; done.
Qed.

Lemma interior_layer_mismatch wi bi n prev cs g :
  length cs ≠ n →
  PFNN.interior_layer wi bi n prev (Branched cs) g
  = (Raise (AssertionError
       "number of sub-layers should equal number of network outputs"), g).
Proof.
  intros Hc. unfold PFNN.interior_layer. rewrite bind_run.
  apply Nat.eqb_neq in Hc. rewrite Hc. reflexivity.
Qed.

Lemma interior_layer_scalar wi bi n p c g :
  PFNN.interior_layer wi bi n (Scalar p) (Scalar c) g
  = let '(w, b, g') := initial_parameters wi bi p c g in
    (Ok (PFNN.Single (layer_with p c (w, b) default_dtype)), g').
Proof.
  unfold PFNN.interior_layer. cbn [is_int assert as_int].
  rewrite bind_run. cbn. rewrite bind_run. cbn.
  rewrite bind_run, make_linear_run.
  by destruct (initial_parameters wi bi p c g) as [[w b] g'].
Qed.

Lemma interior_layer_rejoin wi bi n ps c g :
  PFNN.interior_layer wi bi n (Branched ps) (Scalar c) g
  = (Raise (AssertionError
       "cannot rejoin parallel subnetworks after splitting"), g).
Proof. reflexivity. Qed.

Lemma interior_layer_scalar_fits wi bi n p c g :
  returns (PFNN.interior_layer wi bi n (Scalar p) (Scalar c)) g
    (λ l _, interior_fits n (Scalar p) (Scalar c) l).
Proof.
  unfold returns. rewrite interior_layer_scalar.
  destruct (initial_parameters wi bi p c g) as [[w b] g'].
  exists p, (layer_with p c (w, b) default_dtype).
  repeat split; cbn; eauto.
Qed.

End PFNN_construction.

Section PFNN_loop.
Context `{Backend}.
Implicit Types (wi bi : initializer) (g : rng).

Lemma new_layer_run wi bi n prev curr acc g :
  PFNN.new_layer wi bi n prev curr acc g
  = match PFNN.interior_layer wi bi n prev curr g with
    | (Ok l, g') => (Ok (acc ++ [l]), g')
    | (Raise e, g') => (Raise e, g')
    end.
Proof. reflexivity. Qed.

(** The loop over the interior sizes: it stops at the first assertion that
    fails, and otherwise appends one fitting layer per size. *)
Lemma PFNN_pairs wi bi n prev mid acc g :
  branches_match n prev →
  match interior_verdict n prev mid with
  | Some msg =>
      ∃ g', for_pairs prev mid (PFNN.new_layer wi bi n) acc g
            = (Raise (AssertionError msg), g')
  | None =>
      returns (for_pairs prev mid (PFNN.new_layer wi bi n) acc) g
        (λ layers _, ∃ new, layers = acc ++ new ∧
                            interior_chain n prev mid new ∧
                            branches_match n (List.last mid prev))
  end.
Proof.
  revert prev acc g. induction mid as [|c mid IH]; intros prev acc g Hp.
  - cbn. exists []. by rewrite app_nil_r.
  - rewrite last_cons_default.
    cbn [interior_verdict for_pairs]. destruct c as [cc|cs].
    + destruct prev as [p|ps]; cbn [is_int].
      * pose proof (interior_layer_scalar_fits wi bi n p cc g) as Hl.
        apply returns_elim in Hl as (l & g1 & El & Hl).
        specialize (IH (Scalar cc) (acc ++ [l]) g1 I).
        destruct (interior_verdict n (Scalar cc) mid) as [msg|].
        -- destruct IH as [g' IH]. exists g'.
           rewrite bind_run, new_layer_run, El. exact IH.
        -- unfold returns. rewrite bind_run, new_layer_run, El.
           apply returns_elim in IH as (ls & g2 & -> & new & -> & Hc & Hb).
           exists (l :: new). by rewrite <- app_assoc.
      * exists g. reflexivity.
    + destruct (length cs =? n) eqn:E.
      * apply Nat.eqb_eq in E.
        pose proof (interior_layer_branched wi bi n prev cs g Hp E) as Hl.
        apply returns_elim in Hl as (l & g1 & El & Hl).
        specialize (IH (Branched cs) (acc ++ [l]) g1 E).
        destruct (interior_verdict n (Branched cs) mid) as [msg|].
        -- destruct IH as [g' IH]. exists g'.
           rewrite bind_run, new_layer_run, El. exact IH.
        -- unfold returns. rewrite bind_run, new_layer_run, El.
           apply returns_elim in IH as (ls & g2 & -> & new & -> & Hc & Hb).
           exists (l :: new). by rewrite <- app_assoc.
      * apply Nat.eqb_neq in E. exists g.
        rewrite bind_run, new_layer_run.
        by rewrite interior_layer_mismatch.
Qed.

Lemma output_layer_scalar wi bi n p g :
  PFNN.output_layer wi bi n (Scalar p) g
  = let '(w, b, g') := initial_parameters wi bi p n g in
    (Ok (PFNN.Single (layer_with p n (w, b) default_dtype)), g').
Proof.
  unfold PFNN.output_layer. rewrite bind_run, make_linear_run.
  by destruct (initial_parameters wi bi p n g) as [[w b] g'].
Qed.

Lemma output_layer_returns wi bi n prev g :
  branches_match n prev →
  returns (PFNN.output_layer wi bi n prev) g (λ l _, output_fits n prev l).
Proof.
  intros Hp. destruct prev as [p|ps].
  - unfold returns. rewrite output_layer_scalar.
    destruct (initial_parameters wi bi p n g) as [[w b] g'].
    exists (layer_with p n (w, b) default_dtype). repeat split; cbn; eauto.
  - cbn in Hp. unfold PFNN.output_layer. apply returns_bind.
    eapply returns_eq.
    { unfold range. rewrite Nat.sub_0_r.
      assert (Hn : n = length (zip ps (replicate n 1))).
      { rewrite length_zip_with, length_replicate. lia. }
      rewrite Hn at 1.
      apply (mapM_seq_lookup _ (λ pc, PFNN.make_linear wi bi pc.1 pc.2)).
      intros j [a b] s' Hj. cbn [Nat.add].
      apply lookup_zip_with_Some in Hj as (a' & b' & [= <- <-] & Ha & Hb).
      apply lookup_replicate in Hb as [-> _].
      rewrite bind_run. unfold lift at 1.
      by rewrite (index_lookup _ _ _ Ha). }
    eapply returns_mono; [apply make_linears_returns|].
    intros fs s' [Hd Hb]. apply returns_ret. by exists fs.
Qed.

Lemma lookup_last_default {A} (x : A) (l : list A) :
  (x :: l) !! length l = Some (List.last l x).
Proof.
  revert x. induction l as [|y l IH]; intros x; [done|].
  rewrite last_cons_default. cbn. apply IH.
Qed.

Lemma PFNN_initialize_short wi bi sizes g :
  length sizes ≤ 1 →
  PFNN.initialize_layers sizes wi bi g
  = (Raise (AssertionError "must specify input and output sizes"), g).
Proof.
  intros Hl. unfold PFNN.initialize_layers. rewrite bind_run.
  replace (1 <? length sizes) with false; [done|].
  symmetry. apply Nat.ltb_ge. lia.
Qed.

Lemma PFNN_initialize_long wi bi first mid lst g :
  PFNN.initialize_layers (first :: mid ++ [lst]) wi bi g
  = match first, lst with
    | Branched _, _ =>
        (Raise (AssertionError "input size must be integer"), g)
    | Scalar _, Branched _ =>
        (Raise (AssertionError "output size must be integer"), g)
    | Scalar _, Scalar n =>
        (layers ← for_pairs first mid (PFNN.new_layer wi bi n) [];
         l ← PFNN.output_layer wi bi n (List.last mid first);
         mret (layers ++ [l])) g
    end.
Proof.
  set (L := first :: mid ++ [lst]).
  assert (Hlen : length L = S (S (length mid))).
  { unfold L. cbn. rewrite length_app. cbn. lia. }
  assert (H1 : index_neg L 1 = Ok lst).
  { unfold L. rewrite app_comm_cons. apply index_neg_last. }
  assert (H2 : index_neg L 2 = Ok (List.last mid first)).
  { unfold index_neg. rewrite Hlen.
    destruct (decide (2 ≤ S (S (length mid)))); [|lia].
    replace (S (S (length mid)) - 2) with (length mid) by lia.
    apply index_lookup. unfold L. rewrite app_comm_cons.
    rewrite lookup_app_l by (cbn; lia). apply lookup_last_default. }
  unfold PFNN.initialize_layers. fold L.
  rewrite Hlen. cbn [Nat.ltb Nat.leb]. rewrite assert_true_bind.
  replace (lift (index L 0)) with (lift (Ok first) : M rng size) by done.
  rewrite lift_ok_bind.
  destruct first as [a|ps]; [|done]. cbn [is_int].
  rewrite assert_true_bind, H1, lift_ok_bind.
  destruct lst as [n|os]; [|done]. cbn [is_int as_int].
  rewrite assert_true_bind, lift_ok_bind.
  unfold range. replace (S (S (length mid)) - 1 - 1) with (length mid) by lia.
  rewrite (bind_run (for_each _ _ _)).
  rewrite (bind_run (for_pairs _ _ _ _)).
  pose proof (for_each_range_pairs (PFNN.new_layer wi bi n) []
                (Scalar a) mid [Scalar n] [] g) as E.
  cbn [length app] in E. unfold PFNN.add_layer. fold L in E. rewrite E.
  destruct (for_pairs _ _ _ _ g) as [[layers|e] g1]; [|done].
  rewrite H2, lift_ok_bind. reflexivity.
Qed.

(** A list of at least two sizes has a first, a last and a middle. *)
Lemma sizes_split {A} (l : list A) :
  2 ≤ length l → ∃ first mid lst, l = first :: mid ++ [lst].
Proof.
  intros Hl. destruct l as [|first l]; [cbn in Hl; lia|].
  destruct (exists_last (l := l)) as (mid & lst & ->).
  { intros ->. cbn in Hl. lia. }
  eauto.
Qed.

End PFNN_loop.

(** ** What the two constructions return *)

Section Outcomes.
Context `{Backend}.
Implicit Types (wi bi : initializer) (g : rng).

Lemma PFNN_initialize_rejects wi bi a mid n msg g :
  interior_verdict n (Scalar a) mid = Some msg →
  ∃ g', PFNN.initialize_layers (Scalar a :: mid ++ [Scalar n]) wi bi g
        = (Raise (AssertionError msg), g').
Proof.
  intros Hv. rewrite PFNN_initialize_long.
  pose proof (PFNN_pairs wi bi n (Scalar a) mid [] g I) as Hp.
  rewrite Hv in Hp. destruct Hp as [g' Hp]. exists g'.
  by rewrite bind_run, Hp.
Qed.

Lemma PFNN_initialize_accepts wi bi a mid n g :
  interior_verdict n (Scalar a) mid = None →
  returns (PFNN.initialize_layers (Scalar a :: mid ++ [Scalar n]) wi bi) g
    (λ layers _, ∃ inner out,
       layers = inner ++ [out] ∧ interior_chain n (Scalar a) mid inner ∧
       branches_match n (List.last mid (Scalar a)) ∧
       output_fits n (List.last mid (Scalar a)) out).
Proof.
  intros Hv.
  apply (returns_eq _
           (layers ← for_pairs (Scalar a) mid (PFNN.new_layer wi bi n) [];
            l ← PFNN.output_layer wi bi n (List.last mid (Scalar a));
            mret (layers ++ [l])));
    [exact (PFNN_initialize_long wi bi (Scalar a) mid (Scalar n) g)|].
  pose proof (PFNN_pairs wi bi n (Scalar a) mid [] g I) as Hp.
  rewrite Hv in Hp. apply returns_bind.
  eapply returns_mono; [exact Hp|].
  intros layers g1 (inner & -> & Hc & Hb). apply returns_bind.
  eapply returns_mono; [by apply output_layer_returns|].
  intros out g2 Ho. apply returns_ret. by exists inner, out.
Qed.

(** The construction of a [PFNN] returns, or an assertion fails. *)
Lemma PFNN_initialize_outcome wi bi sizes g :
  (∃ a mid n layers g',
     sizes = Scalar a :: mid ++ [Scalar n] ∧
     interior_verdict n (Scalar a) mid = None ∧
     PFNN.initialize_layers sizes wi bi g = (Ok layers, g')) ∨
  (∃ msg g',
     PFNN.initialize_layers sizes wi bi g = (Raise (AssertionError msg), g')).
Proof.
  destruct (decide (2 ≤ length sizes)) as [Hl|Hl].
  - destruct (sizes_split sizes Hl) as (first & mid & lst & ->).
    destruct first as [a|ps].
    2:{ right. rewrite PFNN_initialize_long. eauto. }
    destruct lst as [n|os].
    2:{ right. rewrite PFNN_initialize_long. eauto. }
    destruct (interior_verdict n (Scalar a) mid) as [msg|] eqn:Hv.
    + right. destruct (PFNN_initialize_rejects wi bi a mid n msg g Hv)
        as [g' E]. eauto.
    + left. pose proof (PFNN_initialize_accepts wi bi a mid n g Hv) as R.
      apply returns_elim in R as (layers & g' & E & _).
      exists a, mid, n, layers, g'. done.
  - right. rewrite PFNN_initialize_short by lia. eauto.
Qed.

Lemma PFNN_initialize_inv wi bi sizes g layers g' :
  PFNN.initialize_layers sizes wi bi g = (Ok layers, g') →
  ∃ a mid n inner out,
    sizes = Scalar a :: mid ++ [Scalar n] ∧
    interior_verdict n (Scalar a) mid = None ∧
    layers = inner ++ [out] ∧ interior_chain n (Scalar a) mid inner ∧
    branches_match n (List.last mid (Scalar a)) ∧
    output_fits n (List.last mid (Scalar a)) out.
Proof.
  intros E.
  destruct (PFNN_initialize_outcome wi bi sizes g)
    as [(a & mid & n & layers' & g1 & -> & Hv & E')|(msg & g1 & E')].
  - pose proof (PFNN_initialize_accepts wi bi a mid n g Hv) as R.
    apply (returns_det _ _ _ _ _ R) in E as (inner & out & Hi).
    exists a, mid, n, inner, out. done.
  - congruence.
Qed.

(** The construction of an [FNN] returns, or the framework refuses a
    size. *)
Lemma FNN_initialize_outcome wi bi sizes g :
  (length sizes ≤ 1 ∧ FNN.initialize_layers sizes wi bi g = (Ok [], g)) ∨
  (∃ a b ns, sizes = Scalar <$> (a :: b :: ns) ∧
     FNN.initialize_layers sizes wi bi g
     = ((Ok (layer_of config_real
               <$> (chain_parameters wi bi a (b :: ns) g).1)),
        (chain_parameters wi bi a (b :: ns) g).2)) ∨
  (2 ≤ length sizes ∧ forallb is_int sizes = false ∧
   ∃ g', FNN.initialize_layers sizes wi bi g = (Raise TypeError, g')).
Proof.
  destruct sizes as [|x rest]; [left; split; [cbn; lia | done]|].
  destruct rest as [|y rest]; [left; split; [cbn; lia | done]|].
  right. rewrite FNN_initialize_pairs.
  destruct (forallb is_int (x :: y :: rest)) eqn:E.
  - left. cbn [forallb] in E.
    apply andb_true_iff in E as [Hx E]. apply andb_true_iff in E as [Hy E].
    destruct x as [a|]; [|done]. destruct y as [b|]; [|done].
    assert (∃ ns, rest = Scalar <$> ns) as [ns ->].
    { clear -E. induction rest as [|z rest IH]; [by exists []|].
      cbn [forallb] in E. apply andb_true_iff in E as [Hz E].
      destruct (IH E) as [ns ->].
      destruct z as [c|]; [|done]. by exists (c :: ns). }
    exists a, b, ns. split; [done|].
    change (Scalar b :: (Scalar <$> ns)) with (Scalar <$> (b :: ns)).
    rewrite FNN_pairs_scalar.
    by destruct (chain_parameters wi bi a (b :: ns) g).
  - right. split; [cbn; lia|]. split; [done|].
    by apply FNN_pairs_branched.
Qed.

End Outcomes.

(** ** The assertions of the parallel network, by position *)

Section Verdicts.
Context `{Backend}.
Implicit Types (wi bi : initializer) (g : rng) (mid : list size).

Lemma verdict_rejoin n ps mid j c :
  mid !! j = Some (Scalar c) →
  is_Some (interior_verdict n (Branched ps) mid).
Proof.
  revert ps j. induction mid as [|h mid IH]; intros ps j Hj; [done|].
  cbn [interior_verdict]. destruct h as [c'|cs]; [cbn; eauto|].
  destruct j as [|j]; [done|]. cbn in Hj.
  destruct (length cs =? n); [by eapply IH | eauto].
Qed.

Lemma verdict_branch_then_scalar n prev mid i j b c :
  i < j → mid !! i = Some (Branched b) → mid !! j = Some (Scalar c) →
  is_Some (interior_verdict n prev mid).
Proof.
  revert prev i j. induction mid as [|h mid IH]; intros prev i j Hij Hi Hj;
    [done|].
  destruct j as [|j]; [lia|]. cbn in Hj. cbn [interior_verdict].
  destruct i as [|i].
  - cbn in Hi. injection Hi as ->.
    destruct (length b =? n); [by eapply verdict_rejoin | eauto].
  - cbn in Hi. assert (i < j) by lia.
    destruct h as [c'|cs].
    + destruct (is_int prev); [by eapply IH | eauto].
    + destruct (length cs =? n); [by eapply IH | eauto].
Qed.

Lemma verdict_mismatch n prev mid i b :
  mid !! i = Some (Branched b) → length b ≠ n →
  is_Some (interior_verdict n prev mid).
Proof.
  revert prev i. induction mid as [|h mid IH]; intros prev i Hi Hb; [done|].
  cbn [interior_verdict]. destruct i as [|i]; cbn in Hi.
  - injection Hi as ->. apply Nat.eqb_neq in Hb. rewrite Hb. eauto.
  - destruct h as [c'|cs].
    + destruct (is_int prev); [by eapply IH | eauto].
    + destruct (length cs =? n); [by eapply IH | eauto].
Qed.

(** Without a scalar after a branched size, only the sub-layer counts
    decide. *)
Lemma verdict_counts n prev mid :
  (∀ i c, mid !! i = Some (Scalar c) → ∃ p, (prev :: mid) !! i = Some (Scalar p)) →
  (∀ i b, mid !! i = Some (Branched b) → length b = n) →
  interior_verdict n prev mid = None.
Proof.
  revert prev. induction mid as [|h mid IH]; intros prev Hr Hc; [done|].
  cbn [interior_verdict]. destruct h as [c|cs].
  - destruct (Hr 0 c eq_refl) as [p [= ->]]. cbn.
    apply IH.
    + intros i c' Hi. apply (Hr (S i) c' Hi).
    + intros i b Hi. apply (Hc (S i) b Hi).
  - rewrite (proj2 (Nat.eqb_eq _ _) (Hc 0 cs eq_refl)).
    apply IH.
    + intros i c' Hi. apply (Hr (S i) c' Hi).
    + intros i b Hi. apply (Hc (S i) b Hi).
Qed.

(** The interior entries of a list of sizes. *)
Lemma interior_lookup {A} (first lst : A) (mid : list A) i :
  1 ≤ i → i < length (first :: mid ++ [lst]) - 1 →
  (first :: mid ++ [lst]) !! i = mid !! (i - 1).
Proof.
  intros H1 H2. cbn in H2. rewrite length_app in H2. cbn in H2.
  destruct i as [|i]; [lia|]. cbn. rewrite Nat.sub_0_r.
  apply lookup_app_l. lia.
Qed.

Lemma interior_lookup_prev {A} (first lst : A) (mid : list A) i :
  1 ≤ i → i < length (first :: mid ++ [lst]) - 1 →
  (first :: mid ++ [lst]) !! (i - 1) = (first :: mid) !! (i - 1).
Proof.
  intros H1 H2. cbn in H2. rewrite length_app in H2. cbn in H2.
  rewrite app_comm_cons. apply lookup_app_l. cbn. lia.
Qed.

Lemma index_neg_1_inv {A} (first lst x : A) (mid : list A) :
  index_neg (first :: mid ++ [lst]) 1 = Ok x → x = lst.
Proof. rewrite app_comm_cons, index_neg_last. congruence. Qed.

End Verdicts.

(** ** Configuration errors *)

Section Configuration.
Context `{Backend}.
Implicit Types (wi bi : initializer) (g : rng).

(** C4: a [PFNN] whose layer sizes have a branched interior entry and a
    scalar interior entry after it is not constructed: an assertion fails.
    Branched entries right before the final scalar entry are accepted: the
    output size is that entry. *)
Theorem PFNN_rejoin_rejected wi bi g :
  (∀ sizes i j b c,
     1 ≤ i → i < j → j < length sizes - 1 →
     sizes !! i = Some (Branched b) → sizes !! j = Some (Scalar c) →
     ∃ msg g', PFNN.initialize_layers sizes wi bi g
               = (Raise (AssertionError msg), g')) ∧
  (∀ a bs n,
     Forall (λ b, length b = n) bs →
     ∃ layers g',
       PFNN.initialize_layers (Scalar a :: (Branched <$> bs) ++ [Scalar n])
         wi bi g = (Ok layers, g')).
Proof.
  split.
  - intros sizes i j b c Hi Hij Hj Eb Ec.
    destruct (PFNN_initialize_outcome wi bi sizes g)
      as [(a & mid & n & layers & g' & -> & Hv & _)|Hr]; [|exact Hr].
    rewrite interior_lookup in Eb, Ec by lia.
    assert (is_Some (interior_verdict n (Scalar a) mid)) as [msg Hm].
    { eapply (verdict_branch_then_scalar n _ mid (i - 1) (j - 1));
        [lia | exact Eb | exact Ec]. }
    congruence.
  - intros a bs n Hb.
    assert (Hv : interior_verdict n (Scalar a) (Branched <$> bs) = None).
    { apply verdict_counts.
      - intros i c Hi. apply list_lookup_fmap_Some in Hi as (b & Hc & _).
        done.
      - intros i b Hi.
        apply list_lookup_fmap_Some in Hi as (b' & [= ->] & Hi).
        eapply Forall_lookup_1 in Hb; [exact Hb | exact Hi]. }
    pose proof (PFNN_initialize_accepts wi bi a _ n g Hv) as R.
    apply returns_elim in R as (layers & g' & E & _). eauto.
Qed.

(** C5: with output count [n], a branched interior entry of another length
    stops the construction of a [PFNN] with an assertion; where the other
    assertions hold (two sizes or more, an int first, no scalar interior
    entry after a branched one), the construction succeeds if and only if
    every branched entry has length [n]. *)
Theorem PFNN_sublayer_count wi bi g sizes n :
  index_neg sizes 1 = Ok (Scalar n) →
  (∀ i b,
     1 ≤ i → i < length sizes - 1 →
     sizes !! i = Some (Branched b) → length b ≠ n →
     ∃ msg g', PFNN.initialize_layers sizes wi bi g
               = (Raise (AssertionError msg), g')) ∧
  (2 ≤ length sizes →
   (∃ a, sizes !! 0 = Some (Scalar a)) →
   (∀ i c, 1 ≤ i → i < length sizes - 1 → sizes !! i = Some (Scalar c) →
           ∃ p, sizes !! (i - 1) = Some (Scalar p)) →
   ((∃ layers g', PFNN.initialize_layers sizes wi bi g = (Ok layers, g'))
    ↔ ∀ i b, sizes !! i = Some (Branched b) → length b = n)).
Proof.
  intros Hn. split.
  - intros i b Hi1 Hi2 Eb Hb.
    destruct (PFNN_initialize_outcome wi bi sizes g)
      as [(a & mid & n' & layers & g' & -> & Hv & _)|Hr]; [|exact Hr].
    apply index_neg_1_inv in Hn as [= <-].
    rewrite interior_lookup in Eb by lia.
    destruct (verdict_mismatch n (Scalar a) mid (i - 1) b Eb Hb) as [msg Hm].
    congruence.
  - intros Hl [a Ha] Hr.
    destruct (sizes_split sizes Hl) as (first & mid & lst & ->).
    apply index_neg_1_inv in Hn as <-. injection Ha as ->.
    split.
    + intros (layers & g' & E) i b Eb.
      apply PFNN_initialize_inv in E
        as (a' & mid' & n' & _ & _ & Es & Hv & _).
      injection Es as <- Es. apply app_inj_tail in Es as [<- [= <-]].
      destruct i as [|i]; [done|].
      change ((mid ++ [Scalar n]) !! i = Some (Branched b)) in Eb.
      destruct (decide (i < length mid)) as [Hi|Hi].
      * rewrite lookup_app_l in Eb by done.
        destruct (decide (length b = n)) as [|Hb]; [done|].
        destruct (verdict_mismatch n (Scalar a) mid i b Eb Hb) as [msg Hm].
        congruence.
      * rewrite lookup_app_r in Eb by lia.
        destruct (i - length mid) as [|k]; [done|].
        by destruct k.
    + intros Hc.
      assert (Hv : interior_verdict n (Scalar a) mid = None).
      { apply verdict_counts.
        - intros i c Hi. apply lookup_lt_Some in Hi as Hlt.
          destruct (Hr (S i) c) as [p Hp].
          + lia.
          + cbn. rewrite length_app. cbn. lia.
          + change ((mid ++ [Scalar n]) !! i = Some (Scalar c)).
            by rewrite lookup_app_l.
          + exists p. replace (S i - 1) with i in Hp by lia.
            rewrite app_comm_cons, lookup_app_l in Hp by (cbn; lia).
            exact Hp.
        - intros i b Hi. apply lookup_lt_Some in Hi as Hlt.
          apply (Hc (S i) b).
          change ((mid ++ [Scalar n]) !! i = Some (Branched b)).
          by rewrite lookup_app_l. }
      pose proof (PFNN_initialize_accepts wi bi a mid n g Hv) as R.
      apply returns_elim in R as (layers & g' & E & _). eauto.
Qed.


End Configuration.

(** ** The layers of the parallel network *)

Section Topology.
Context `{Backend}.
Implicit Types (wi bi : initializer) (g : rng).

Lemma interior_chain_length n prev mid ls :
  interior_chain n prev mid ls → length ls = length mid.
Proof.
  revert prev ls. induction mid as [|c mid IH]; intros prev [|l ls] Hc;
    try done.
  destruct Hc as [_ Hc]. cbn. f_equal. by eapply IH.
Qed.

Lemma interior_chain_lookup n prev mid ls i p c :
  interior_chain n prev mid ls →
  (prev :: mid) !! i = Some p → mid !! i = Some c →
  ∃ l, ls !! i = Some l ∧ interior_fits n p c l.
Proof.
  revert prev ls i. induction mid as [|h mid IH]; intros prev ls i Hc Hp Hi;
    [done|].
  destruct ls as [|l ls]; [done|]. destruct Hc as [Hf Hc].
  destruct i as [|i].
  - injection Hp as ->. injection Hi as ->. by exists l.
  - eapply (IH h ls i); done.
Qed.



Lemma dims_lookup (fs : list Linear) (xs ys : list nat) j f :
  linear_dims <$> fs = zip xs ys → fs !! j = Some f →
  xs !! j = Some (in_features f) ∧ ys !! j = Some (out_features f).
Proof.
  intros Hd Hf.
  assert (Hj : (linear_dims <$> fs) !! j = Some (linear_dims f))
    by (by rewrite list_lookup_fmap, Hf).
  rewrite Hd in Hj.
  apply lookup_zip_with_Some in Hj as (x & y & [= <- <-] & Hx & Hy). done.
Qed.

Lemma dims_length (fs : list Linear) (xs ys : list nat) n :
  linear_dims <$> fs = zip xs ys → length xs = n → length ys = n →
  length fs = n.
Proof.
  intros Hd Hx Hy. rewrite <- (length_fmap linear_dims), Hd.
  rewrite length_zip_with. lia.
Qed.

(** C7: in a [PFNN] that was constructed, the layer between two
    consecutive sizes, the second of them interior, follows the transition
    rules.  Scalar after scalar: one shared layer.  Branched after scalar:
    one sub-layer per output, each with the shared size as input size.
    Branched after branched: one sub-layer per output, the [j]-th from the
    [j]-th size to the [j]-th size.  Scalar after branched does not occur. *)
Theorem PFNN_transition_rules wi bi g sizes layers g' :
  PFNN.initialize_layers sizes wi bi g = (Ok layers, g') →
  ∃ n_output,
    index_neg sizes 1 = Ok (Scalar n_output) ∧
    ∀ i prev curr,
      1 ≤ i → i < length sizes - 1 →
      sizes !! (i - 1) = Some prev → sizes !! i = Some curr →
      match prev, curr with
      | Scalar p, Scalar c =>
          ∃ f, layers !! (i - 1) = Some (PFNN.Single f) ∧
               in_features f = p ∧ out_features f = c
      | Scalar p, Branched cs =>
          ∃ fs, layers !! (i - 1) = Some (PFNN.ModuleList fs) ∧
                length fs = n_output ∧
                ∀ j f, fs !! j = Some f →
                       in_features f = p ∧ cs !! j = Some (out_features f)
      | Branched ps, Branched cs =>
          ∃ fs, layers !! (i - 1) = Some (PFNN.ModuleList fs) ∧
                length fs = n_output ∧
                ∀ j f, fs !! j = Some f →
                       ps !! j = Some (in_features f) ∧
                       cs !! j = Some (out_features f)
      | Branched _, Scalar _ => False
      end.
Proof.
  intros E.
  apply PFNN_initialize_inv in E
    as (a & mid & n & inner & out & -> & Hv & -> & Hc & _).
  exists n. split; [by rewrite app_comm_cons, index_neg_last|].
  intros i prev curr Hi1 Hi2 Hp Hcur.
  rewrite interior_lookup_prev in Hp by done.
  rewrite interior_lookup in Hcur by done.
  destruct (interior_chain_lookup n _ mid inner (i - 1) prev curr Hc Hp Hcur)
    as (l & Hl & Hf).
  apply (lookup_app_l_Some _ [out]) in Hl.
  destruct curr as [c|cs].
  - destruct Hf as (p & f & -> & -> & [= Hin Hout] & _). by exists f.
  - destruct Hf as (fs & -> & Hcs & Hm & Hd & _).
    pose proof (branch_inputs_length n prev Hm) as Hlen.
    destruct prev as [p|ps]; exists fs; (split; [done|]);
      (split; [by eapply dims_length|]); intros j f Hj;
      destruct (dims_lookup _ _ _ j f Hd Hj) as [Hx Hy].
    + cbn in Hx. apply lookup_replicate in Hx as [<- _]. done.
    + done.
Qed.


End Topology.

(** ** The forward pass of the parallel network *)

Section PFNN_forward.
Context `{Backend}.

Lemma PFNN_forward_run (self : PFNN.t) hidden out inputs :
  PFNN.layers self = hidden ++ [out] →
  PFNN.forward inputs self
  = (v ← for_each_pure hidden (PFNN.hidden (PFNN.activation self))
           (PFNN.One (transformed (PFNN._input_transform self) inputs));
     y ← PFNN.output out v;
     Ok (match PFNN._output_transform self with
         | Some f => f inputs y
         | None => y
         end), self).
Proof.
  intros Hl. unfold PFNN.forward.
  rewrite bind_run. unfold get at 1. cbv zeta.
  rewrite bind_run, Hl, slice_init_last, for_each_lift.
  fold (transformed (PFNN._input_transform self) inputs).
  destruct (for_each_pure hidden _ _) as [v|e]; [|done].
  rewrite index_neg_last, lift_ok_bind, bind_run. unfold lift at 1. cbn.
  destruct (PFNN.output out v) as [y|e]; done.
Qed.

Lemma PFNN_forward_no_layer (self : PFNN.t) inputs :
  PFNN.layers self = [] →
  PFNN.forward inputs self = (Raise IndexError, self).
Proof.
  intros Hl. unfold PFNN.forward.
  rewrite bind_run. unfold get at 1. cbv zeta.
  rewrite bind_run, Hl. reflexivity.
Qed.

Lemma PFNN_forward_readonly inputs : readonly (PFNN.forward inputs).
Proof.
  unfold PFNN.forward. apply readonly_bind; [apply readonly_get|].
  intros self. cbv zeta.
  apply readonly_bind.
  { apply readonly_for_each. intros l x. apply readonly_lift. }
  intros x. apply readonly_bind; [apply readonly_lift|].
  intros last. apply readonly_bind; [apply readonly_lift|].
  intros y. apply readonly_ret.
Qed.

End PFNN_forward.

(** ** The constructors *)

Section Constructors.
Context `{Backend}.

Lemma FNN_init_inv sizes act ini g net g' :
  FNN.__init__ sizes act ini g = (Ok net, g') →
  ∃ sigma wi bi,
    activations_get act = Some sigma ∧ initializers_get ini = Some wi ∧
    initializers_get "zeros" = Some bi ∧
    FNN.initialize_layers sizes wi bi g = (Ok (FNN.linears net), g') ∧
    net = {| FNN.activation := sigma; FNN.linears := FNN.linears net;
             FNN._input_transform := None; FNN._output_transform := None |}.
Proof.
  unfold FNN.__init__, registered. intros E.
  destruct (activations_get act) as [sigma|]; [|discriminate E].
  destruct (initializers_get ini) as [wi|]; [|discriminate E].
  destruct (initializers_get "zeros") as [bi|]; [|discriminate E].
  rewrite !ret_bind, bind_run in E.
  destruct (FNN.initialize_layers sizes wi bi g) as [[ls|e] g1] eqn:Ei;
    [|discriminate E].
  injection E as <- <-. exists sigma, wi, bi. cbn. done.
Qed.

Lemma PFNN_init_inv sizes act ini g net g' :
  PFNN.__init__ sizes act ini g = (Ok net, g') →
  ∃ sigma wi bi,
    activations_get act = Some sigma ∧ initializers_get ini = Some wi ∧
    initializers_get "zeros" = Some bi ∧
    PFNN.initialize_layers sizes wi bi g = (Ok (PFNN.layers net), g') ∧
    net = {| PFNN.activation := sigma; PFNN.layers := PFNN.layers net;
             PFNN._input_transform := None;
             PFNN._output_transform := None |}.
Proof.
  unfold PFNN.__init__, registered. intros E.
  destruct (activations_get act) as [sigma|]; [|discriminate E].
  destruct (initializers_get ini) as [wi|]; [|discriminate E].
  destruct (initializers_get "zeros") as [bi|]; [|discriminate E].
  rewrite !ret_bind, bind_run in E.
  destruct (PFNN.initialize_layers sizes wi bi g) as [[ls|e] g1] eqn:Ei;
    [|discriminate E].
  injection E as <- <-. exists sigma, wi, bi. cbn. done.
Qed.

End Constructors.

(** ** Order and effect of the forward pass *)

Section Forward.
Context `{Backend}.

Lemma snoc_split {A} (l : list A) :
  l ≠ [] → ∃ init lst, l = init ++ [lst] ∧ length init = length l - 1.
Proof.
  intros Hl. destruct (exists_last Hl) as (init & lst & ->).
  exists init, lst. split; [done|]. rewrite length_app. cbn. lia.
Qed.

(** The layers of an [FNN] built from two sizes or more. *)
Lemma FNN_init_layers sizes act ini g net g' :
  2 ≤ length sizes →
  FNN.__init__ sizes act ini g = (Ok net, g') →
  ∃ a b ns wi bi,
    sizes = Scalar <$> a :: b :: ns ∧
    FNN.linears net
    = layer_of config_real <$> (chain_parameters wi bi a (b :: ns) g).1.
Proof.
  intros Hl E.
  apply FNN_init_inv in E as (sigma & wi & bi & _ & _ & _ & E & _).
  destruct (FNN_initialize_outcome wi bi sizes g)
    as [[Hl' _]|[(a & b & ns & -> & E')|(_ & _ & g1 & E')]];
    [lia| |congruence].
  rewrite E' in E. injection E as E _. by exists a, b, ns, wi, bi.
Qed.

(** C1: the forward pass of an [FNN] built from two sizes or more applies
    the input transform, if there is one, then a linear transform and the
    activation for every layer but the last, then the last linear transform
    alone, then the output transform, if there is one, to the original
    input and the output of the last layer. *)
Theorem FNN_forward_order sizes act ini g net g' :
  2 ≤ length sizes →
  FNN.__init__ sizes act ini g = (Ok net, g') →
  ∃ hidden last,
    FNN.linears net = hidden ++ [last] ∧
    length hidden = length sizes - 2 ∧
    ∀ tin tout inputs,
      FNN.forward inputs (FNN_with tin tout net)
      = (described_forward (FNN.activation net) tin tout hidden last inputs,
         FNN_with tin tout net).
Proof.
  intros Hl E.
  destruct (FNN_init_layers sizes act ini g net g' Hl E)
    as (a & b & ns & wi & bi & -> & El).
  pose proof (chain_parameters_length wi bi a (b :: ns) g) as Hn.
  destruct (snoc_split (FNN.linears net)) as (hidden & last & Hs & Hh).
  { rewrite El. intros Hnil. apply (f_equal length) in Hnil.
    rewrite length_fmap, Hn in Hnil. done. }
  exists hidden, last. split; [done|]. split.
  - rewrite Hh, El, !length_fmap, Hn. cbn. lia.
  - intros tin tout inputs.
    by rewrite (FNN_forward_run (FNN_with tin tout net) hidden last).
Qed.

(** C9: the forward pass of an [FNN] and of a [PFNN] leaves the object,
    and with it every weight and bias of every layer, as it was, for every
    input and also when it raises. *)
Theorem forward_keeps_parameters :
  (∀ (self : FNN.t) inputs, (FNN.forward inputs self).2 = self) ∧
  (∀ (self : PFNN.t) inputs, (PFNN.forward inputs self).2 = self).
Proof.
  split; intros self inputs.
  - apply FNN_forward_readonly.
  - apply PFNN_forward_readonly.
Qed.

End Forward.

(** ** Shapes along the forward pass *)

Section Shapes.
Context `{Backend}.

Lemma call_linear_ok f x :
  width x = in_features f →
  call_linear f x
  = Ok {| width := out_features f; rows := map (affine f) (rows x) |}.
Proof.
  intros Hw. unfold call_linear. by destruct (decide _).
Qed.

Lemma dims_split (fs : list Linear) (xs ys : list nat) :
  linear_dims <$> fs = zip xs ys → length xs = length ys →
  in_features <$> fs = xs ∧ out_features <$> fs = ys.
Proof.
  intros Hd Hl. split.
  - transitivity (fst <$> (linear_dims <$> fs)).
    + by rewrite <- list_fmap_compose.
    + rewrite Hd. apply fst_zip. lia.
  - transitivity (snd <$> (linear_dims <$> fs)).
    + by rewrite <- list_fmap_compose.
    + rewrite Hd. apply snd_zip. lia.
Qed.

(** [[activation(f(x)) for f in layer]] *)
Lemma branch_calls_shared act fs x r :
  Forall (λ f, in_features f = width x) fs → length (rows x) = r →
  ∃ ys, mapM (λ f, y ← call_linear f x; mret (elementwise act y)) fs = Ok ys ∧
        width <$> ys = out_features <$> fs ∧
        Forall (λ y, length (rows y) = r) ys.
Proof.
  intros Hf Hr. induction Hf as [|f fs Hw _ (ys & E & Hws & Hrs)].
  - by exists [].
  - eexists (_ :: ys). cbn. rewrite call_linear_ok by done. cbn.
    rewrite E. cbn. split; [done|]. split; [by rewrite Hws|].
    constructor; [|done]. cbn. by rewrite !length_map.
Qed.

(** [[activation(f(x_)) for f, x_ in zip(layer, x)]] *)
Lemma branch_calls_zip act fs xs r :
  in_features <$> fs = width <$> xs → Forall (λ x, length (rows x) = r) xs →
  ∃ ys, mapM (λ '(f, x_), y ← call_linear f x_;
                          mret (elementwise act y)) (zip fs xs) = Ok ys ∧
        width <$> ys = out_features <$> fs ∧
        Forall (λ y, length (rows y) = r) ys.
Proof.
  revert xs. induction fs as [|f fs IH]; intros xs Hw Hr.
  - by exists [].
  - destruct xs as [|x xs]; [done|]. injection Hw as Hx Hw.
    apply Forall_cons in Hr as [Hrx Hr].
    destruct (IH xs Hw Hr) as (ys & E & Hws & Hrs).
    eexists (_ :: ys). cbn. rewrite call_linear_ok by done. cbn.
    rewrite E. cbn. split; [done|]. split; [by rewrite Hws|].
    constructor; [|done]. cbn. by rewrite !length_map.
Qed.

(** [[f(x_) for f, x_ in zip(self.layers[-1], x)]] *)
Lemma branch_outputs fs xs r :
  in_features <$> fs = width <$> xs → Forall (λ x, length (rows x) = r) xs →
  ∃ ys, mapM (λ '(f, x_), call_linear f x_) (zip fs xs) = Ok ys ∧
        width <$> ys = out_features <$> fs ∧
        Forall (λ y, length (rows y) = r ∧ well_formed y) ys.
Proof.
  revert xs. induction fs as [|f fs IH]; intros xs Hw Hr.
  - by exists [].
  - destruct xs as [|x xs]; [done|]. injection Hw as Hx Hw.
    apply Forall_cons in Hr as [Hrx Hr].
    destruct (IH xs Hw Hr) as (ys & E & Hws & Hrs).
    destruct (call_linear f x) as [y|e] eqn:Ey.
    2:{ rewrite call_linear_ok in Ey by done. done. }
    exists (y :: ys). cbn. rewrite Ey. cbn. rewrite E. cbn.
    apply call_linear_shape in Ey as (Hy1 & Hy2 & Hy3).
    split; [done|]. split; [by rewrite Hws, Hy1|].
    constructor; [|done]. split; [lia | done].
Qed.

Lemma hidden_step act n prev curr l r v :
  interior_fits n prev curr l → value_fits r prev v →
  ∃ v', PFNN.hidden act l v = Ok v' ∧ value_fits r curr v'.
Proof.
  intros Hf Hv. destruct curr as [c|cs].
  - destruct Hf as (p & f & -> & -> & [= Hin Hout] & _).
    destruct Hv as (x & -> & Hw & Hr). cbn.
    rewrite call_linear_ok by congruence. cbn.
    eexists. split; [done|]. eexists. split; [done|]. cbn.
    by rewrite !length_map.
  - destruct Hf as (fs & -> & Hcs & Hm & Hd & _).
    apply dims_split in Hd as [Hin Hout];
      [|by rewrite branch_inputs_length].
    destruct prev as [p|ps].
    + destruct Hv as (x & -> & Hw & Hr). cbn in Hin.
      destruct (branch_calls_shared act fs x r) as (ys & E & Hws & Hrs);
        [|done|].
      { apply Forall_forall. intros f Hf.
        assert (in_features f ∈ replicate n p) as Hrep
          by (rewrite <- Hin; by apply list_elem_of_fmap_2).
        apply elem_of_replicate in Hrep as [-> _]. done. }
      exists (PFNN.Many ys). cbn. rewrite E. cbn. split; [done|].
      exists ys. split; [done|]. split; [congruence | done].
    + destruct Hv as (xs & -> & Hw & Hr). cbn in Hin.
      destruct (branch_calls_zip act fs xs r) as (ys & E & Hws & Hrs);
        [congruence|done|].
      exists (PFNN.Many ys). cbn. rewrite E. cbn. split; [done|].
      exists ys. split; [done|]. split; [congruence | done].
Qed.

Lemma hidden_loop act n prev mid ls r v :
  interior_chain n prev mid ls → value_fits r prev v →
  ∃ v', for_each_pure ls (PFNN.hidden act) v = Ok v' ∧
        value_fits r (List.last mid prev) v'.
Proof.
  revert prev ls v. induction mid as [|c mid IH]; intros prev [|l ls] v Hc Hv;
    try done.
  - by exists v.
  - destruct Hc as [Hf Hc]. rewrite last_cons_default.
    destruct (hidden_step act n prev c l r v Hf Hv) as (v1 & E1 & Hv1).
    destruct (IH c ls v1 Hc Hv1) as (v' & E & Hv').
    exists v'. cbn. rewrite E1. done.
Qed.

End Shapes.

Section Concatenation.
Context `{Backend}.

Lemma zip_with_app_lengths (l1 l2 : list (list scalar)) m k :
  Forall (λ x, length x = m) l1 → Forall (λ y, length y = k) l2 →
  Forall (λ z, length z = m + k) (zip_with app l1 l2).
Proof.
  intros H1. revert l2. induction H1 as [|x l1 Hx _ IH]; intros l2 H2.
  - constructor.
  - destruct H2 as [|y l2 Hy H2]; [constructor|]. cbn.
    constructor; [|by apply IH]. rewrite length_app. lia.
Qed.

Lemma hcat_shape a b r :
  well_formed a → well_formed b →
  length (rows a) = r → length (rows b) = r →
  well_formed (hcat a b) ∧ length (rows (hcat a b)) = r.
Proof.
  intros Ha Hb Hra Hrb. split.
  - by apply zip_with_app_lengths.
  - cbn. rewrite length_zip_with. lia.
Qed.

Lemma foldl_hcat_shape ys t r :
  well_formed t → length (rows t) = r →
  Forall (λ y, length (rows y) = r ∧ well_formed y) ys →
  well_formed (foldl hcat t ys) ∧ length (rows (foldl hcat t ys)) = r ∧
  width (foldl hcat t ys) = width t + sum_list (width <$> ys).
Proof.
  revert t. induction ys as [|y ys IH]; intros t Ht Hr Hys.
  - cbn. split; [done|]. split; [done | lia].
  - apply Forall_cons in Hys as [[Hry Hy] Hys]. cbn [foldl].
    destruct (hcat_shape t y r Ht Hy Hr Hry) as [Hw Hl].
    destruct (IH (hcat t y) Hw Hl Hys) as (H1 & H2 & H3).
    split; [done|]. split; [done|]. rewrite H3. cbn. lia.
Qed.

Lemma torch_cat1_shape ys r :
  ys ≠ [] → Forall (λ y, length (rows y) = r ∧ well_formed y) ys →
  ∃ z, torch_cat1 ys = Ok z ∧ well_formed z ∧ length (rows z) = r ∧
       width z = sum_list (width <$> ys).
Proof.
  intros Hne Hys. destruct ys as [|t ys]; [done|].
  apply Forall_cons in Hys as [[Hrt Ht] Hys]. cbn [torch_cat1].
  assert (forallb (λ u, length (rows u) =? length (rows t)) ys = true) as ->.
  { apply forallb_forall. intros u Hu. apply Nat.eqb_eq.
    apply list_elem_of_In in Hu.
    apply (proj1 (Forall_forall _ _) Hys) in Hu as [Hu _]. lia. }
  destruct (foldl_hcat_shape ys t r Ht Hrt Hys) as (H1 & H2 & H3).
  eexists. split; [done|]. split; [done|]. split; [done|]. by rewrite H3.
Qed.

Lemma output_step n prev out r v :
  output_fits n prev out → branches_match n prev → value_fits r prev v →
  0 < n →
  ∃ y, PFNN.output out v = Ok y ∧ width y = n ∧ length (rows y) = r ∧
       well_formed y.
Proof.
  intros Ho Hm Hv Hn. destruct prev as [p|ps].
  - destruct Ho as (f & -> & [= Hin Hout] & _).
    destruct Hv as (x & -> & Hw & Hr). cbn.
    destruct (call_linear f x) as [y|e] eqn:Ey.
    2:{ rewrite call_linear_ok in Ey by congruence. done. }
    apply call_linear_shape in Ey as (Hy1 & Hy2 & Hy3).
    exists y. split; [done|]. split; [congruence|]. split; [lia | done].
  - destruct Ho as (fs & -> & Hd & _). cbn in Hm.
    destruct Hv as (xs & -> & Hw & Hr).
    apply dims_split in Hd as [Hin Hout];
      [|by rewrite length_replicate].
    destruct (branch_outputs fs xs r) as (ys & E & Hws & Hys);
      [congruence|done|].
    destruct (torch_cat1_shape ys r) as (z & Ez & Hz1 & Hz2 & Hz3);
      [|done|].
    { intros ->. rewrite Hout in Hws. destruct n; [lia | done]. }
    exists z. cbn. rewrite E. cbn. split; [done|].
    split; [|done]. rewrite Hz3, Hws, Hout, sum_list_replicate. lia.
Qed.

End Concatenation.

(** ** The size of the output *)

Section Output_size.
Context `{Backend}.

Lemma index_neg_1_cons {A} (x : A) (l : list A) :
  index_neg (x :: l) 1 = Ok (List.last l x).
Proof.
  unfold index_neg. cbn [length].
  destruct (decide (1 ≤ S (length l))); [|lia].
  replace (S (length l) - 1) with (length l) by lia.
  apply index_lookup, lookup_last_default.
Qed.

Lemma last_fmap {A B} (f : A → B) (l : list A) (x : A) :
  List.last (f <$> l) (f x) = f (List.last l x).
Proof.
  revert x. induction l as [|y l IH]; intros x; [done|].
  rewrite fmap_cons, !last_cons_default. apply IH.
Qed.

Lemma chained_snoc a hidden l b :
  chained a (hidden ++ [l]) b →
  ∃ m, chained a hidden m ∧ in_features l = m ∧ out_features l = b.
Proof.
  revert a. induction hidden as [|h hidden IH]; intros a Hc.
  - destruct Hc as [Hin Hout]. exists a. done.
  - destruct Hc as [Hin Hc]. destruct (IH _ Hc) as (m & Hm & Hl).
    exists m. done.
Qed.

(** C2: the forward pass without output transform returns a tensor whose
    last dimension is the output size, the last entry of the layer sizes:
    for an [FNN] built from two sizes or more, and for a [PFNN] with a
    positive output size, whether the entry before the last is branched or
    not.  The input, after the input transform if there is one, has the
    input size as last dimension; the output has as many rows, and each row
    has the length of the last dimension. *)
Theorem forward_output_size sizes act ini g a n tin inputs :
  sizes !! 0 = Some (Scalar a) →
  index_neg sizes 1 = Ok (Scalar n) →
  width (transformed tin inputs) = a →
  (∀ net g',
     2 ≤ length sizes →
     FNN.__init__ sizes act ini g = (Ok net, g') →
     ∃ y, FNN.forward inputs (FNN_with tin None net)
          = (Ok y, FNN_with tin None net) ∧
          width y = n ∧ well_formed y ∧
          length (rows y) = length (rows (transformed tin inputs))) ∧
  (∀ net g',
     0 < n →
     PFNN.__init__ sizes act ini g = (Ok net, g') →
     ∃ y, PFNN.forward inputs (PFNN_with tin None net)
          = (Ok y, PFNN_with tin None net) ∧
          width y = n ∧ well_formed y ∧
          length (rows y) = length (rows (transformed tin inputs))).
Proof.
  intros Ha Hn Hw. split.
  - intros net g' Hl E.
    destruct (FNN_init_layers sizes act ini g net g' Hl E)
      as (a' & b & ns & wi & bi & -> & El).
    injection Ha as ->.
    change (Scalar <$> a :: b :: ns)
      with (Scalar a :: (Scalar <$> b :: ns)) in Hn.
    rewrite index_neg_1_cons, last_fmap in Hn.
    assert (Hlast : List.last (b :: ns) a = n) by congruence.
    pose proof (chain_parameters_chained wi bi config_real a (b :: ns) g)
      as Hc.
    rewrite <- El, Hlast in Hc.
    pose proof (chain_parameters_length wi bi a (b :: ns) g) as Hlen.
    destruct (snoc_split (FNN.linears net)) as (hidden & last & Hs & _).
    { rewrite El. intros Hnil. apply (f_equal length) in Hnil.
      rewrite length_fmap, Hlen in Hnil. done. }
    rewrite Hs in Hc. apply chained_snoc in Hc as (m & Hc & Hin & Hout).
    rewrite (FNN_forward_run (FNN_with tin None net) hidden last) by done.
    unfold described_forward. cbn [FNN_with FNN.activation
      FNN._input_transform FNN._output_transform].
    fold (transformed tin inputs).
    destruct (alternate_chained (FNN.activation net) hidden a m
                (transformed tin inputs) Hc Hw) as (x & -> & Hx & Hr).
    cbn. destruct (call_linear last x) as [y|e] eqn:Ey.
    2:{ rewrite call_linear_ok in Ey by congruence. done. }
    apply call_linear_shape in Ey as (Hy1 & Hy2 & Hy3).
    exists y. cbn. split; [done|]. split; [congruence|].
    split; [done | lia].
  - intros net g' Hpos E.
    apply PFNN_init_inv in E as (sigma & wi & bi & _ & _ & _ & E & _).
    apply PFNN_initialize_inv in E
      as (a' & mid & n' & inner & out & -> & _ & El & Hc & Hm & Ho).
    injection Ha as ->. apply index_neg_1_inv in Hn as [= <-].
    rewrite (PFNN_forward_run (PFNN_with tin None net) inner out) by done.
    cbn [PFNN_with PFNN.activation PFNN._input_transform
      PFNN._output_transform].
    set (r := length (rows (transformed tin inputs))).
    destruct (hidden_loop (PFNN.activation net) n (Scalar a) mid inner r
                (PFNN.One (transformed tin inputs)) Hc) as (v & -> & Hv).
    { by exists (transformed tin inputs). }
    destruct (output_step n _ out r v Ho Hm Hv Hpos)
      as (y & Ey & Hy1 & Hy2 & Hy3).
    exists y. cbn. rewrite Ey. done.
Qed.

End Output_size.

(** ** The parallel network on scalar sizes *)

Section Scalar_sizes.
Context `{Backend}.
Implicit Types (wi bi : initializer) (g : rng).

Lemma FNN_init_run sizes act ini g sigma wi bi ls g' :
  activations_get act = Some sigma → initializers_get ini = Some wi →
  initializers_get "zeros" = Some bi →
  FNN.initialize_layers sizes wi bi g = (Ok ls, g') →
  FNN.__init__ sizes act ini g
  = (Ok {| FNN.activation := sigma; FNN.linears := ls;
           FNN._input_transform := None; FNN._output_transform := None |},
     g').
Proof.
  intros Ea Ei Ez E. unfold FNN.__init__. rewrite Ea, Ei, Ez.
  cbn [registered]. rewrite !ret_bind, bind_run, E. reflexivity.
Qed.

Lemma PFNN_init_run sizes act ini g sigma wi bi ls g' :
  activations_get act = Some sigma → initializers_get ini = Some wi →
  initializers_get "zeros" = Some bi →
  PFNN.initialize_layers sizes wi bi g = (Ok ls, g') →
  PFNN.__init__ sizes act ini g
  = (Ok {| PFNN.activation := sigma; PFNN.layers := ls;
           PFNN._input_transform := None; PFNN._output_transform := None |},
     g').
Proof.
  intros Ea Ei Ez E. unfold PFNN.__init__. rewrite Ea, Ei, Ez.
  cbn [registered]. rewrite !ret_bind, bind_run, E. reflexivity.
Qed.

Lemma FNN_initialize_scalar wi bi a ns g :
  FNN.initialize_layers (Scalar <$> a :: ns) wi bi g
  = let '(ps, g') := chain_parameters wi bi a ns g in
    (Ok (layer_of config_real <$> ps), g').
Proof.
  rewrite fmap_cons, FNN_initialize_pairs, FNN_pairs_scalar.
  by destruct (chain_parameters wi bi a ns g).
Qed.

Lemma PFNN_pairs_scalar wi bi n a ns acc g :
  for_pairs (Scalar a) (Scalar <$> ns) (PFNN.new_layer wi bi n) acc g
  = let '(ps, g') := chain_parameters wi bi a ns g in
    (Ok (acc ++ ((λ p, PFNN.Single (layer_of default_dtype p)) <$> ps)), g').
Proof.
  revert a acc g. induction ns as [|b ns IH]; intros a acc g.
  - cbn. by rewrite app_nil_r.
  - cbn [fmap list_fmap for_pairs chain_parameters].
    rewrite bind_run, new_layer_run, interior_layer_scalar.
    destruct (initial_parameters wi bi a b g) as [[w c] g1].
    rewrite IH.
    destruct (chain_parameters wi bi b ns g1) as [ps g2].
    cbn. by rewrite <- app_assoc.
Qed.

Lemma PFNN_initialize_scalar wi bi a ms n g :
  PFNN.initialize_layers (Scalar <$> a :: ms ++ [n]) wi bi g
  = let '(ps, g') := chain_parameters wi bi a (ms ++ [n]) g in
    (Ok ((λ p, PFNN.Single (layer_of default_dtype p)) <$> ps), g').
Proof.
  rewrite fmap_cons, fmap_app.
  change (Scalar <$> [n]) with [Scalar n].
  rewrite PFNN_initialize_long, bind_run, PFNN_pairs_scalar.
  rewrite chain_parameters_snoc.
  destruct (chain_parameters wi bi a ms g) as [ps g1].
  rewrite bind_run, last_fmap, output_layer_scalar.
  destruct (initial_parameters wi bi (List.last ms a) n g1) as [[w c] g2].
  cbn. by rewrite fmap_app.
Qed.

(** Shared layers on one tensor are the alternation of an [FNN]. *)
Lemma scalar_hidden_pass act (ls : list Linear) x :
  for_each_pure (PFNN.Single <$> ls) (PFNN.hidden act) (PFNN.One x)
  = y ← alternate act ls x; Ok (PFNN.One y).
Proof.
  revert x. induction ls as [|l ls IH]; intros x; [done|].
  cbn. destruct (call_linear l x) as [y|e]; cbn; [apply IH | done].
Qed.

(** A [PFNN] and an [FNN] with the same layers, the same activation and the
    same transforms return the same. *)
Lemma scalar_layers_forward (p : PFNN.t) (f : FNN.t) tin tout inputs :
  PFNN.layers p = PFNN.Single <$> FNN.linears f →
  PFNN.activation p = FNN.activation f →
  (PFNN.forward inputs (PFNN_with tin tout p)).1
  = (FNN.forward inputs (FNN_with tin tout f)).1.
Proof.
  intros Hl Ha.
  destruct (decide (FNN.linears f = [])) as [Hn|Hn].
  - rewrite FNN_forward_no_layer by done.
    rewrite PFNN_forward_no_layer; [done|]. cbn. by rewrite Hl, Hn.
  - destruct (snoc_split _ Hn) as (hidden & last & Hs & _).
    rewrite (PFNN_forward_run (PFNN_with tin tout p)
               (PFNN.Single <$> hidden) (PFNN.Single last))
      by (cbn; by rewrite Hl, Hs, fmap_app).
    rewrite (FNN_forward_run _ hidden last) by done.
    unfold described_forward. cbn [fst FNN_with PFNN_with
      FNN.activation FNN._input_transform FNN._output_transform
      PFNN.activation PFNN._input_transform PFNN._output_transform].
    rewrite Ha, scalar_hidden_pass.
    fold (transformed tin inputs).
    destruct (alternate (FNN.activation f) hidden _) as [x|e]; [|done].
    reflexivity.
Qed.

(** C3: on layer sizes that are all scalar, and given identical parameter
    initialization, a [PFNN] that is constructed is an [FNN].  The
    initialization is identical when the configured precision is the
    default precision of the framework: then, from the same generator, the
    [FNN] of the same sizes and names is constructed too, the layers of the
    [PFNN] are the layers of the [FNN], one for one and dtype included, and
    the two forward passes return the same for every input and every choice
    of transforms.  Such a [PFNN] is constructed when the sizes are two or
    more and the names are known.  When the configured precision is not the
    default one, the layers of the two networks are never the same: the
    initialization is not identical. *)
Theorem PFNN_scalar_is_FNN ns act ini g :
  (config_real = default_dtype →
   ∀ p g',
     PFNN.__init__ (Scalar <$> ns) act ini g = (Ok p, g') →
     ∃ f,
       FNN.__init__ (Scalar <$> ns) act ini g = (Ok f, g') ∧
       PFNN.layers p = PFNN.Single <$> FNN.linears f ∧
       PFNN.activation p = FNN.activation f ∧
       ∀ tin tout inputs,
         (PFNN.forward inputs (PFNN_with tin tout p)).1
         = (FNN.forward inputs (FNN_with tin tout f)).1) ∧
  (2 ≤ length ns →
   is_Some (activations_get act) → is_Some (initializers_get ini) →
   is_Some (initializers_get "zeros") →
   ∃ p g', PFNN.__init__ (Scalar <$> ns) act ini g = (Ok p, g')) ∧
  (config_real ≠ default_dtype →
   ∀ p f g1 g2,
     PFNN.__init__ (Scalar <$> ns) act ini g = (Ok p, g1) →
     FNN.__init__ (Scalar <$> ns) act ini g = (Ok f, g2) →
     PFNN.layers p ≠ PFNN.Single <$> FNN.linears f).
Proof.
  assert (Hlong : ∀ wi bi layers g',
            PFNN.initialize_layers (Scalar <$> ns) wi bi g = (Ok layers, g') →
            2 ≤ length ns).
  { intros wi bi layers g' E.
    destruct (decide (2 ≤ length ns)) as [|Hl]; [done|].
    rewrite PFNN_initialize_short in E by (rewrite length_fmap; lia).
    done. }
  split; [|split].
  - intros Hd p g' E.
    apply PFNN_init_inv in E as (sigma & wi & bi & Ea & Ei & Ez & E & Ep).
    destruct (sizes_split ns (Hlong _ _ _ _ E)) as (a & ms & n & ->).
    rewrite PFNN_initialize_scalar in E.
    pose proof (FNN_initialize_scalar wi bi a (ms ++ [n]) g) as Ef.
    destruct (chain_parameters wi bi a (ms ++ [n]) g) as [ps g1].
    injection E as El <-.
    pose proof (FNN_init_run _ act ini g sigma wi bi _ _ Ea Ei Ez Ef) as Einit.
    eexists. split; [exact Einit|]. cbn [FNN.linears FNN.activation].
    assert (Hlayers : PFNN.layers p
                      = PFNN.Single <$> (layer_of config_real <$> ps))
      by (by rewrite <- El, Hd, <- list_fmap_compose).
    assert (Hact : PFNN.activation p = sigma) by (by rewrite Ep).
    split; [exact Hlayers|]. split; [exact Hact|].
    intros tin tout inputs.
    by apply scalar_layers_forward.
  - intros Hl [sigma Ea] [wi Ei] [bi Ez].
    destruct (sizes_split ns Hl) as (a & ms & n & ->).
    pose proof (PFNN_initialize_scalar wi bi a ms n g) as Ep.
    destruct (chain_parameters wi bi a (ms ++ [n]) g) as [ps g1].
    eexists _, g1.
    exact (PFNN_init_run _ act ini g sigma wi bi _ _ Ea Ei Ez Ep).
  - intros Hd p f g1 g2 Ep Ef Heq.
    apply PFNN_init_inv in Ep as (sigma & wi & bi & Ea & Ei & Ez & Ep & _).
    apply FNN_init_inv in Ef as (sigma' & wi' & bi' & Ea' & Ei' & Ez' & Ef & _).
    assert (wi' = wi) as -> by congruence.
    assert (bi' = bi) as -> by congruence.
    destruct (sizes_split ns (Hlong _ _ _ _ Ep)) as (a & ms & n & ->).
    rewrite PFNN_initialize_scalar in Ep.
    rewrite FNN_initialize_scalar in Ef.
    pose proof (chain_parameters_length wi bi a (ms ++ [n]) g) as Hlen.
    destruct (chain_parameters wi bi a (ms ++ [n]) g) as [ps g3].
    injection Ep as Elp _. injection Ef as Elf _.
    rewrite <- Elp, <- Elf in Heq.
    destruct ps as [|q ps].
    { cbn in Hlen. rewrite length_app in Hlen. cbn in Hlen. lia. }
    injection Heq as Hq _. by apply Hd.
Qed.

End Scalar_sizes.

(** ** The output layers *)

Section Output_stage.
Context `{Backend}.

Lemma index_neg_2 {A} (first lst : A) (mid : list A) :
  index_neg (first :: mid ++ [lst]) 2 = Ok (List.last mid first).
Proof.
  unfold index_neg. cbn [length]. rewrite length_app. cbn [length].
  destruct (decide (2 ≤ S (length mid + 1))); [|lia].
  replace (S (length mid + 1) - 2) with (length mid) by lia.
  apply index_lookup. rewrite app_comm_cons.
  rewrite lookup_app_l by (cbn; lia). apply lookup_last_default.
Qed.

Lemma fmap_replicate_Forall {A} (f : A → nat) (l : list A) n k :
  f <$> l = replicate n k → length l = n ∧ Forall (λ x, f x = k) l.
Proof.
  intros E. split.
  - by rewrite <- (length_fmap f), E, length_replicate.
  - apply Forall_forall. intros x Hx.
    assert (f x ∈ replicate n k) as Hr
      by (rewrite <- E; by apply list_elem_of_fmap_2).
    by apply elem_of_replicate in Hr as [-> _].
Qed.

(** C8: in a [PFNN] that was constructed, with input size [a] and output
    size [n], the last element of the layers depends on the entry before
    the last of the layer sizes.  Branched: it is a list of [n] layers, the
    [j]-th with the [j]-th size as input size and one output unit, and the
    forward pass applies the [j]-th of them to the [j]-th of the tensors
    that the layers before left, and concatenates the [n] outputs, each of
    width one, along dimension 1.  Scalar: it is one layer from that size
    to [n], which the forward pass applies to the tensor that the layers
    before left. *)
Theorem PFNN_output_stage sizes act ini g net g' a n :
  PFNN.__init__ sizes act ini g = (Ok net, g') →
  sizes !! 0 = Some (Scalar a) →
  index_neg sizes 1 = Ok (Scalar n) →
  ∃ hidden,
    match index_neg sizes 2 with
    | Ok (Branched ps) =>
        ∃ fs,
          PFNN.layers net = hidden ++ [PFNN.ModuleList fs] ∧
          length fs = n ∧
          (∀ j f, fs !! j = Some f →
                  ps !! j = Some (in_features f) ∧ out_features f = 1) ∧
          ∀ tin tout inputs,
            width (transformed tin inputs) = a →
            ∃ xs ys,
              for_each_pure hidden (PFNN.hidden (PFNN.activation net))
                (PFNN.One (transformed tin inputs)) = Ok (PFNN.Many xs) ∧
              mapM (λ '(f, x_), call_linear f x_) (zip fs xs) = Ok ys ∧
              length ys = n ∧ Forall (λ y, width y = 1) ys ∧
              PFNN.forward inputs (PFNN_with tin tout net)
              = (y ← torch_cat1 ys;
                 Ok (match tout with Some t => t inputs y | None => y end),
                 PFNN_with tin tout net)
    | Ok (Scalar p) =>
        ∃ f,
          PFNN.layers net = hidden ++ [PFNN.Single f] ∧
          in_features f = p ∧ out_features f = n ∧
          ∀ tin tout inputs,
            width (transformed tin inputs) = a →
            ∃ x,
              for_each_pure hidden (PFNN.hidden (PFNN.activation net))
                (PFNN.One (transformed tin inputs)) = Ok (PFNN.One x) ∧
              PFNN.forward inputs (PFNN_with tin tout net)
              = (y ← call_linear f x;
                 Ok (match tout with Some t => t inputs y | None => y end),
                 PFNN_with tin tout net)
    | Raise _ => False
    end.
Proof.
  intros E Ha Hn.
  apply PFNN_init_inv in E as (sigma & wi & bi & _ & _ & _ & E & _).
  apply PFNN_initialize_inv in E
    as (a' & mid & n' & inner & out & -> & _ & El & Hc & Hm & Ho).
  injection Ha as ->. apply index_neg_1_inv in Hn as [= <-].
  exists inner. rewrite index_neg_2.
  destruct (List.last mid (Scalar a)) as [p|ps] eqn:Elast.
  - destruct Ho as (f & -> & [= Hin Hout] & _).
    exists f. split; [done|]. split; [done|]. split; [done|].
    intros tin tout inputs Hw.
    destruct (hidden_loop (PFNN.activation net) n (Scalar a) mid inner
                (length (rows (transformed tin inputs)))
                (PFNN.One (transformed tin inputs)) Hc) as (v & Ev & Hv).
    { by exists (transformed tin inputs). }
    rewrite Elast in Hv. destruct Hv as (x & -> & _).
    exists x. split; [done|].
    rewrite (PFNN_forward_run (PFNN_with tin tout net) inner
               (PFNN.Single f)) by done.
    cbn [PFNN_with PFNN.activation PFNN._input_transform
      PFNN._output_transform].
    rewrite Ev. reflexivity.
  - destruct Ho as (fs & -> & Hd & _). cbn in Hm.
    exists fs. split; [done|].
    split; [eapply dims_length; [exact Hd | done | apply length_replicate]|].
    split.
    { intros j f Hj. destruct (dims_lookup _ _ _ j f Hd Hj) as [Hx Hy].
      split; [done|]. by apply lookup_replicate in Hy as [<- _]. }
    intros tin tout inputs Hw.
    destruct (hidden_loop (PFNN.activation net) n (Scalar a) mid inner
                (length (rows (transformed tin inputs)))
                (PFNN.One (transformed tin inputs)) Hc) as (v & Ev & Hv).
    { by exists (transformed tin inputs). }
    rewrite Elast in Hv. destruct Hv as (xs & -> & Hxs & Hr).
    apply dims_split in Hd as [Hin Hout]; [|by rewrite length_replicate].
    destruct (branch_outputs fs xs
                (length (rows (transformed tin inputs))))
      as (ys & Ey & Hws & _); [congruence | exact Hr |].
    rewrite Hout in Hws. apply fmap_replicate_Forall in Hws as [Hlen Hone].
    exists xs, ys. split; [done|]. split; [done|]. split; [done|].
    split; [done|].
    rewrite (PFNN_forward_run (PFNN_with tin tout net) inner
               (PFNN.ModuleList fs)) by done.
    cbn [PFNN_with PFNN.activation PFNN._input_transform
      PFNN._output_transform].
    rewrite Ev. cbn. rewrite Ey. reflexivity.
Qed.

End Output_stage.

(** ** The theorems at work on the integer backend *)

Lemma FNN_forward_order_witness :
  ∃ net g',
    FNN.__init__ (H := Zbackend.backend) [Scalar 2; Scalar 3; Scalar 2]
      "relu" "uniform" 1%Z = (Ok net, g') ∧
    ∃ hidden last,
      FNN.linears net = hidden ++ [last] ∧ length hidden = 1 ∧
      ∀ tin tout inputs,
        FNN.forward inputs (FNN_with tin tout net)
        = (described_forward (FNN.activation net) tin tout hidden last
             inputs, FNN_with tin tout net).
Proof.
  eexists _, _. split; [reflexivity|].
  eapply (FNN_forward_order (H := Zbackend.backend)
            [Scalar 2; Scalar 3; Scalar 2] "relu" "uniform" 1%Z);
    [cbn; lia | reflexivity].
Defined.

Lemma forward_output_size_witness :
  (∃ net g',
     FNN.__init__ (H := Zbackend.backend) [Scalar 2; Scalar 3; Scalar 2]
       "relu" "uniform" 1%Z = (Ok net, g') ∧
     ∃ y, FNN.forward Zbackend.batch (FNN_with None None net)
          = (Ok y, FNN_with None None net) ∧
          width y = 2 ∧ well_formed y ∧ length (rows y) = 2) ∧
  (∃ net g',
     PFNN.__init__ (H := Zbackend.backend)
       [Scalar 2; Branched [3; 2]; Scalar 2]
       "relu" "uniform" 1%Z = (Ok net, g') ∧
     ∃ y, PFNN.forward Zbackend.batch (PFNN_with None None net)
          = (Ok y, PFNN_with None None net) ∧
          width y = 2 ∧ well_formed y ∧ length (rows y) = 2).
Proof.
  split; eexists _, _; (split; [reflexivity|]).
  - eapply (proj1 (forward_output_size (H := Zbackend.backend)
                     [Scalar 2; Scalar 3; Scalar 2] "relu" "uniform" 1%Z
                     2 2 None Zbackend.batch eq_refl eq_refl eq_refl));
      [cbn; lia | reflexivity].
  - eapply (proj2 (forward_output_size (H := Zbackend.backend)
                     [Scalar 2; Branched [3; 2]; Scalar 2]
                     "relu" "uniform" 1%Z
                     2 2 None Zbackend.batch eq_refl eq_refl eq_refl));
      [lia | reflexivity].
Defined.

Lemma PFNN_scalar_is_FNN_witness :
  ∃ p g',
    PFNN.__init__ (H := Zbackend.single) (Scalar <$> [2; 3; 2])
      "relu" "uniform" 1%Z = (Ok p, g') ∧
    ∃ f,
      FNN.__init__ (H := Zbackend.single) (Scalar <$> [2; 3; 2])
        "relu" "uniform" 1%Z = (Ok f, g') ∧
      PFNN.layers p = PFNN.Single <$> FNN.linears f ∧
      PFNN.activation p = FNN.activation f ∧
      ∀ tin tout inputs,
        (PFNN.forward inputs (PFNN_with tin tout p)).1
        = (FNN.forward inputs (FNN_with tin tout f)).1.
Proof.
  eexists _, _. split; [reflexivity|].
  eapply (proj1 (PFNN_scalar_is_FNN (H := Zbackend.single) [2; 3; 2]
                   "relu" "uniform" 1%Z) eq_refl).
  reflexivity.
Defined.

Lemma PFNN_rejoin_rejected_witness :
  (∃ msg g',
     PFNN.initialize_layers (H := Zbackend.backend)
       [Scalar 2; Branched [3; 3]; Scalar 4; Scalar 2]
       Zbackend.uniform_ Zbackend.zeros_ 1%Z
     = (Raise (AssertionError msg), g')) ∧
  (∃ layers g',
     PFNN.initialize_layers (H := Zbackend.backend)
       (Scalar 2 :: (Branched <$> [[3; 3]; [4; 1]]) ++ [Scalar 2])
       Zbackend.uniform_ Zbackend.zeros_ 1%Z
     = (Ok layers, g')).
Proof.
  split.
  - apply (proj1 (PFNN_rejoin_rejected (H := Zbackend.backend)
                    Zbackend.uniform_ Zbackend.zeros_ 1%Z)
             [Scalar 2; Branched [3; 3]; Scalar 4; Scalar 2]
             1 2 [3; 3] 4); [lia | lia | cbn; lia | reflexivity | reflexivity].
  - apply (proj2 (PFNN_rejoin_rejected (H := Zbackend.backend)
                    Zbackend.uniform_ Zbackend.zeros_ 1%Z)
             2 [[3; 3]; [4; 1]] 2).
    repeat constructor.
Defined.

Lemma PFNN_sublayer_count_witness :
  (∃ msg g',
     PFNN.initialize_layers (H := Zbackend.backend)
       [Scalar 2; Branched [3; 3; 3]; Scalar 2]
       Zbackend.uniform_ Zbackend.zeros_ 1%Z
     = (Raise (AssertionError msg), g')) ∧
  ((∃ layers g',
      PFNN.initialize_layers (H := Zbackend.backend)
        [Scalar 2; Branched [3; 2]; Scalar 2]
        Zbackend.uniform_ Zbackend.zeros_ 1%Z
      = (Ok layers, g'))
   ↔ ∀ i b, [Scalar 2; Branched [3; 2]; Scalar 2] !! i = Some (Branched b) →
            length b = 2).
Proof.
  split.
  - apply (proj1 (PFNN_sublayer_count (H := Zbackend.backend)
                    Zbackend.uniform_ Zbackend.zeros_ 1%Z
                    [Scalar 2; Branched [3; 3; 3]; Scalar 2] 2 eq_refl)
             1 [3; 3; 3]); [lia | cbn; lia | reflexivity | cbn; lia].
  - apply (proj2 (PFNN_sublayer_count (H := Zbackend.backend)
                    Zbackend.uniform_ Zbackend.zeros_ 1%Z
                    [Scalar 2; Branched [3; 2]; Scalar 2] 2 eq_refl)).
    + cbn; lia.
    + exists 2. reflexivity.
    + intros i c Hi1 Hi2 Hc. cbn in Hi2.
      assert (i = 1) as -> by lia. discriminate Hc.
Defined.


Lemma PFNN_transition_rules_witness :
  ∃ layers g',
    PFNN.initialize_layers (H := Zbackend.backend)
      [Scalar 2; Scalar 3; Branched [3; 2]; Branched [1; 1]; Scalar 2]
      Zbackend.uniform_ Zbackend.zeros_ 1%Z = (Ok layers, g') ∧
    (∃ f, layers !! 0 = Some (PFNN.Single f) ∧
          in_features f = 2 ∧ out_features f = 3) ∧
    (∃ fs, layers !! 1 = Some (PFNN.ModuleList fs) ∧ length fs = 2 ∧
           ∀ j f, fs !! j = Some f →
                  in_features f = 3 ∧ [3; 2] !! j = Some (out_features f)) ∧
    (∃ fs, layers !! 2 = Some (PFNN.ModuleList fs) ∧ length fs = 2 ∧
           ∀ j f, fs !! j = Some f →
                  [3; 2] !! j = Some (in_features f) ∧
                  [1; 1] !! j = Some (out_features f)).
Proof.
  eexists _, _. split; [reflexivity|].
  destruct (PFNN_transition_rules (H := Zbackend.backend)
              Zbackend.uniform_ Zbackend.zeros_ 1%Z
              [Scalar 2; Scalar 3; Branched [3; 2]; Branched [1; 1]; Scalar 2]
              _ _ eq_refl) as (n & Hn & Hrules).
  injection Hn as <-.
  split; [|split].
  - apply (Hrules 1 (Scalar 2) (Scalar 3)); [lia | cbn; lia | done | done].
  - apply (Hrules 2 (Scalar 3) (Branched [3; 2]));
      [lia | cbn; lia | done | done].
  - apply (Hrules 3 (Branched [3; 2]) (Branched [1; 1]));
      [lia | cbn; lia | done | done].
Defined.

Lemma PFNN_output_stage_witness :
  ∃ net g',
    PFNN.__init__ (H := Zbackend.backend)
      [Scalar 2; Branched [3; 2]; Scalar 2] "relu" "uniform" 1%Z
    = (Ok net, g') ∧
    ∃ hidden fs,
      PFNN.layers net = hidden ++ [PFNN.ModuleList fs] ∧ length fs = 2 ∧
      (∀ j f, fs !! j = Some f →
              [3; 2] !! j = Some (in_features f) ∧ out_features f = 1) ∧
      ∃ xs ys,
        for_each_pure hidden (PFNN.hidden (PFNN.activation net))
          (PFNN.One Zbackend.batch) = Ok (PFNN.Many xs) ∧
        mapM (λ '(f, x_), call_linear f x_) (zip fs xs) = Ok ys ∧
        length ys = 2 ∧ Forall (λ y, width y = 1) ys ∧
        PFNN.forward Zbackend.batch (PFNN_with None None net)
        = (y ← torch_cat1 ys; Ok y, PFNN_with None None net).
Proof.
  eexists _, _. split; [reflexivity|].
  destruct (PFNN_output_stage (H := Zbackend.backend)
              [Scalar 2; Branched [3; 2]; Scalar 2] "relu" "uniform" 1%Z
              _ _ 2 2 eq_refl eq_refl eq_refl) as (hidden & Hstage).
  change (index_neg [Scalar 2; Branched [3; 2]; Scalar 2] 2)
    with (Ok (Branched [3; 2])) in Hstage.
  destruct Hstage as (fs & Hl & Hlen & Hdims & Hfwd).
  exists hidden, fs. split; [exact Hl|]. split; [exact Hlen|].
  split; [exact Hdims|].
  exact (Hfwd None None Zbackend.batch eq_refl).
Defined.



(** ** More on the fully-connected network *)

Section FNN_more.
Context `{Backend}.
Implicit Types (wi bi : initializer) (g : rng).

Lemma chain_parameters_lookup wi bi a ns g i p :
  (chain_parameters wi bi a ns g).1 !! i = Some p →
  (a :: ns) !! i = Some p.1.1 ∧ ns !! i = Some p.1.2.
Proof.
  revert a g i. induction ns as [|b ns IH]; intros a g i; cbn; [done|].
  destruct (initial_parameters wi bi a b g) as [[w c] g1].
  specialize (IH b g1).
  destruct (chain_parameters wi bi b ns g1) as [ps g2]. cbn in *.
  destruct i as [|i]; cbn.
  - by intros [= <-].
  - intros Hp. apply (IH i Hp).
Qed.

(** X1: the layers of an [FNN] follow the layer sizes: there is one layer less
    than there are sizes, none for fewer than two sizes, and the [i]-th
    layer goes from the [i]-th size to the next one. *)
Theorem FNN_layers_follow_sizes wi bi g sizes linears g' :
  FNN.initialize_layers sizes wi bi g = (Ok linears, g') →
  length linears = length sizes - 1 ∧
  ∀ i l, linears !! i = Some l →
         sizes !! i = Some (Scalar (in_features l)) ∧
         sizes !! S i = Some (Scalar (out_features l)).
Proof.
  intros E.
  destruct (FNN_initialize_outcome wi bi sizes g)
    as [[Hl E']|[(a & b & ns & -> & E')|(_ & _ & g1 & E')]];
    rewrite E' in E; [| |done].
  - injection E as <- _. split; [cbn; lia | done].
  - assert (linears = layer_of config_real
                        <$> (chain_parameters wi bi a (b :: ns) g).1)
      as -> by congruence.
    clear E E'. split.
    + rewrite !length_fmap.
      rewrite (chain_parameters_length wi bi a (b :: ns) g). cbn. lia.
    + intros i l Hl. apply list_lookup_fmap_Some in Hl as (p & -> & Hp).
      apply chain_parameters_lookup in Hp as [Hin Hout].
      split.
      * rewrite list_lookup_fmap, Hin. done.
      * change (S i) with (1 + i). rewrite fmap_cons.
        change ((Scalar <$> b :: ns) !! i
                = Some (Scalar (out_features (layer_of config_real p)))).
        rewrite list_lookup_fmap, Hout. done.
Qed.

(** X2: an [FNN] of fewer than two sizes is constructed, whatever the sizes
    are, without a layer and without a draw from the generator; its forward
    pass raises an index error on every input, with or without
    transforms. *)
Theorem FNN_short_sizes sizes act ini g :
  length sizes ≤ 1 →
  is_Some (activations_get act) → is_Some (initializers_get ini) →
  is_Some (initializers_get "zeros") →
  ∃ net,
    FNN.__init__ sizes act ini g = (Ok net, g) ∧ FNN.linears net = [] ∧
    ∀ tin tout inputs,
      FNN.forward inputs (FNN_with tin tout net)
      = (Raise IndexError, FNN_with tin tout net).
Proof.
  intros Hl [sigma Ea] [wi Ei] [bi Ez].
  destruct (FNN_initialize_outcome wi bi sizes g)
    as [[_ E]|[(a & b & ns & -> & _)|(Hl' & _)]]; [|cbn in Hl; lia|lia].
  eexists. split; [exact (FNN_init_run _ act ini g sigma wi bi _ _ Ea Ei Ez E)|].
  split; [done|]. intros tin tout inputs.
  by apply FNN_forward_no_layer.
Qed.

End FNN_more.

(** ** The transforms around the layers *)

Section Transforms.
Context `{Backend}.

(** X3: the two transforms only wrap the layers: the forward pass with
    transforms is the forward pass without them on the transformed input,
    followed by the output transform on the original input and that
    output; an exception of the layers passes through.  For every object
    of both classes. *)
Theorem transforms_wrap_forward :
  (∀ (self : FNN.t) tin tout inputs,
     (FNN.forward inputs (FNN_with tin tout self)).1
     = (y ← (FNN.forward (transformed tin inputs)
               (FNN_with None None self)).1;
        Ok (finished tout inputs y))) ∧
  (∀ (self : PFNN.t) tin tout inputs,
     (PFNN.forward inputs (PFNN_with tin tout self)).1
     = (y ← (PFNN.forward (transformed tin inputs)
               (PFNN_with None None self)).1;
        Ok (finished tout inputs y))).
Proof.
  split; intros self tin tout inputs.
  - destruct (decide (FNN.linears self = [])) as [Hl|Hl].
    + by rewrite !FNN_forward_no_layer.
    + destruct (snoc_split _ Hl) as (hidden & last & Hs & _).
      rewrite !(FNN_forward_run _ hidden last) by done.
      unfold described_forward. cbn [fst FNN_with FNN.activation
        FNN._input_transform FNN._output_transform].
      fold (transformed tin inputs).
      destruct (alternate _ hidden _) as [x|e]; [|done]. cbn.
      destruct (call_linear last x) as [y|e]; done.
  - destruct (decide (PFNN.layers self = [])) as [Hl|Hl].
    + by rewrite !PFNN_forward_no_layer.
    + destruct (snoc_split _ Hl) as (hidden & out & Hs & _).
      rewrite !(PFNN_forward_run _ hidden out) by done.
      cbn [fst PFNN_with PFNN.activation PFNN._input_transform
        PFNN._output_transform transformed].
      fold (transformed tin inputs).
      destruct (for_each_pure hidden _ _) as [v|e]; [|done]. cbn.
      destruct (PFNN.output out v) as [y|e]; done.
Qed.

End Transforms.

(** ** The layer sizes that the parallel network accepts *)

Section Accepted.
Context `{Backend}.
Implicit Types (wi bi : initializer) (g : rng) (mid : list size).

Lemma verdict_branches n prev (bs : list (list nat)) :
  Forall (λ b, length b = n) bs →
  interior_verdict n prev (Branched <$> bs) = None.
Proof.
  intros Hb. revert prev. induction Hb as [|b bs Hl _ IH]; intros prev.
  - done.
  - cbn. rewrite (proj2 (Nat.eqb_eq _ _) Hl). apply IH.
Qed.

Lemma verdict_scalars n a (ms : list nat) :
  interior_verdict n (Scalar a) (Scalar <$> ms) = None.
Proof.
  revert a. induction ms as [|m ms IH]; intros a; [done|]. cbn. apply IH.
Qed.

Lemma verdict_app n prev l1 l2 :
  interior_verdict n prev l1 = None →
  interior_verdict n prev (l1 ++ l2)
  = interior_verdict n (List.last l1 prev) l2.
Proof.
  revert prev. induction l1 as [|c l1 IH]; intros prev Hv; [done|].
  rewrite last_cons_default. cbn [app interior_verdict] in *.
  destruct c as [c|cs].
  - destruct (is_int prev); [by apply IH | done].
  - destruct (length cs =? n); [by apply IH | done].
Qed.

Lemma verdict_after_branched n ps mid :
  interior_verdict n (Branched ps) mid = None →
  ∃ bs, mid = Branched <$> bs ∧ Forall (λ b, length b = n) bs.
Proof.
  revert ps. induction mid as [|c mid IH]; intros ps Hv.
  - by exists [].
  - cbn in Hv. destruct c as [c|cs]; [done|].
    destruct (length cs =? n) eqn:E; [|done].
    apply Nat.eqb_eq in E. destruct (IH cs Hv) as (bs & -> & Hb).
    exists (cs :: bs). split; [done | by constructor].
Qed.

Lemma verdict_none_shape n a mid :
  interior_verdict n (Scalar a) mid = None →
  ∃ ms bs, mid = (Scalar <$> ms) ++ (Branched <$> bs) ∧
           Forall (λ b, length b = n) bs.
Proof.
  revert a. induction mid as [|c mid IH]; intros a Hv.
  - by exists [], [].
  - cbn in Hv. destruct c as [c|cs].
    + destruct (IH c Hv) as (ms & bs & -> & Hb). by exists (c :: ms), bs.
    + destruct (length cs =? n) eqn:E; [|done].
      apply Nat.eqb_eq in E.
      destruct (verdict_after_branched n cs mid Hv) as (bs & -> & Hb).
      exists [], (cs :: bs). split; [done | by constructor].
Qed.

Lemma verdict_scalars_branches n a (ms : list nat) (bs : list (list nat)) :
  Forall (λ b, length b = n) bs →
  interior_verdict n (Scalar a) ((Scalar <$> ms) ++ (Branched <$> bs)) = None.
Proof.
  intros Hb. rewrite verdict_app by apply verdict_scalars.
  by apply verdict_branches.
Qed.

(** X4: the layer sizes from which a [PFNN] is constructed are exactly
    these:
    an int, then ints, then lists of as many numbers as there are outputs,
    then the int that is the number of outputs.  Once the sizes are
    branched they stay branched up to the output. *)
Theorem PFNN_accepted_sizes wi bi g sizes :
  (∃ layers g', PFNN.initialize_layers sizes wi bi g = (Ok layers, g'))
  ↔ ∃ a ms bs n,
      sizes = Scalar a :: (Scalar <$> ms) ++ (Branched <$> bs) ++ [Scalar n] ∧
      Forall (λ b, length b = n) bs.
Proof.
  split.
  - intros (layers & g' & E).
    apply PFNN_initialize_inv in E
      as (a & mid & n & _ & _ & -> & Hv & _).
    apply verdict_none_shape in Hv as (ms & bs & -> & Hb).
    exists a, ms, bs, n. by rewrite <- app_assoc.
  - intros (a & ms & bs & n & -> & Hb).
    rewrite app_assoc.
    pose proof (PFNN_initialize_accepts wi bi a _ n g
                  (verdict_scalars_branches n a ms bs Hb)) as R.
    apply returns_elim in R as (layers & g' & E & _). eauto.
Qed.

(** X5: whether a [PFNN] is constructed depends on the layer sizes alone: for
    given sizes either every choice of initializers and generator gives a
    network, or every choice fails the same assertion.  No other exception
    leaves the construction: the sizes it reads by index are there. *)
Theorem PFNN_outcome_by_sizes sizes :
  (∀ wi bi g, ∃ layers g',
     PFNN.initialize_layers sizes wi bi g = (Ok layers, g')) ∨
  (∃ msg, ∀ wi bi g, ∃ g',
     PFNN.initialize_layers sizes wi bi g = (Raise (AssertionError msg), g')).
Proof.
  destruct (decide (2 ≤ length sizes)) as [Hl|Hl].
  - destruct (sizes_split sizes Hl) as (first & mid & lst & ->).
    destruct first as [a|ps].
    2:{ right. eexists. intros wi bi g. rewrite PFNN_initialize_long. eauto. }
    destruct lst as [n|os].
    2:{ right. eexists. intros wi bi g. rewrite PFNN_initialize_long. eauto. }
    destruct (interior_verdict n (Scalar a) mid) as [msg|] eqn:Hv.
    + right. exists msg. intros wi bi g.
      by apply PFNN_initialize_rejects.
    + left. intros wi bi g.
      pose proof (PFNN_initialize_accepts wi bi a mid n g Hv) as R.
      apply returns_elim in R as (layers & g' & E & _). eauto.
  - right. eexists. intros wi bi g.
    rewrite PFNN_initialize_short by lia. eauto.
Qed.

(** X6: the first interior entry that offends decides the assertion that
    fails, whatever comes after it: after ints and well-sized lists, a list
    of another length than the number of outputs fails the count of
    sub-layers, and an int after a list fails the rejoining. *)
Theorem PFNN_first_offence wi bi g a ms bs rest n :
  Forall (λ b, length b = n) bs →
  (∀ b, length b ≠ n →
     ∃ g', PFNN.initialize_layers
             (Scalar a :: (Scalar <$> ms) ++ (Branched <$> bs) ++
                Branched b :: rest ++ [Scalar n]) wi bi g
           = (Raise (AssertionError
                "number of sub-layers should equal number of network outputs"),
              g')) ∧
  (∀ c, bs ≠ [] →
     ∃ g', PFNN.initialize_layers
             (Scalar a :: (Scalar <$> ms) ++ (Branched <$> bs) ++
                Scalar c :: rest ++ [Scalar n]) wi bi g
           = (Raise (AssertionError
                "cannot rejoin parallel subnetworks after splitting"), g')).
Proof.
  intros Hb.
  pose proof (verdict_scalars_branches n a ms bs Hb) as Hv.
  split.
  - intros b Hl.
    replace ((Scalar <$> ms) ++ (Branched <$> bs) ++
               Branched b :: rest ++ [Scalar n])
      with ((((Scalar <$> ms) ++ (Branched <$> bs)) ++ Branched b :: rest)
              ++ [Scalar n])
      by (by rewrite <- !app_assoc).
    apply PFNN_initialize_rejects. rewrite verdict_app by done.
    cbn. apply Nat.eqb_neq in Hl. by rewrite Hl.
  - intros c Hne.
    replace ((Scalar <$> ms) ++ (Branched <$> bs) ++
               Scalar c :: rest ++ [Scalar n])
      with ((((Scalar <$> ms) ++ (Branched <$> bs)) ++ Scalar c :: rest)
              ++ [Scalar n])
      by (by rewrite <- !app_assoc).
    apply PFNN_initialize_rejects. rewrite verdict_app by done.
    destruct (exists_last Hne) as (bs' & b' & ->).
    rewrite fmap_app, app_assoc. cbn [fmap list_fmap].
    rewrite last_last. reflexivity.
Qed.

(** X7: a [PFNN] has one element in [self.layers] less than there are layer
    sizes, and every list of sub-layers among them has one sub-layer per
    output. *)
Theorem PFNN_layer_count wi bi g sizes layers g' n :
  PFNN.initialize_layers sizes wi bi g = (Ok layers, g') →
  index_neg sizes 1 = Ok (Scalar n) →
  length layers = length sizes - 1 ∧
  ∀ i fs, layers !! i = Some (PFNN.ModuleList fs) → length fs = n.
Proof.
  intros E Hn.
  apply PFNN_initialize_inv in E
    as (a & mid & n' & inner & out & -> & _ & -> & Hc & Hm & Ho).
  apply index_neg_1_inv in Hn as [= <-].
  pose proof (interior_chain_length _ _ _ _ Hc) as Hlen.
  split.
  - cbn. rewrite !length_app. cbn. lia.
  - intros i fs Hi.
    destruct (decide (i < length inner)) as [Hlt|Hge].
    + rewrite lookup_app_l in Hi by done.
      assert (is_Some (mid !! i)) as [c Hci]
        by (apply lookup_lt_is_Some; lia).
      assert (is_Some ((Scalar a :: mid) !! i)) as [p Hpi]
        by (apply lookup_lt_is_Some; cbn; lia).
      destruct (interior_chain_lookup n _ mid inner i p c Hc Hpi Hci)
        as (l & Hl & Hf).
      rewrite Hi in Hl. injection Hl as <-.
      destruct c as [c|cs].
      * by destruct Hf as (? & ? & _ & ? & _).
      * destruct Hf as (fs' & [= <-] & Hcs & Hp & Hd & _).
        eapply dims_length; [exact Hd | by apply branch_inputs_length | done].
    + rewrite lookup_app_r in Hi by lia.
      destruct (i - length inner) as [|k]; [|by destruct k].
      injection Hi as ->.
      destruct (List.last mid (Scalar a)) as [p|ps].
      * by destruct Ho as (? & ? & _).
      * destruct Ho as (fs' & [= <-] & Hd & _). cbn in Hm.
        eapply dims_length; [exact Hd | done | apply length_replicate].
Qed.

End Accepted.

(** ** The parameters that the constructions leave *)

Section Parameters.
Context `{Backend}.
Implicit Types (wi bi : initializer) (g : rng).

Lemma mapM_Forall_inv {St A B} (f : A → M St B) (P : B → Prop) l s ys s' :
  (∀ x s1 y s2, f x s1 = (Ok y, s2) → P y) →
  mapM f l s = (Ok ys, s') → Forall P ys.
Proof.
  intros Hf. revert s ys s'. induction l as [|x l IH]; intros s ys s' E.
  - injection E as <- _. constructor.
  - cbn [mapM] in E. apply bind_inv in E as (y & s1 & Ey & E).
    apply bind_inv in E as (k & s2 & Ek & E). injection E as <- _.
    constructor; [by eapply Hf | by eapply IH].
Qed.

Lemma make_linear_created wi bi a b g f g' :
  PFNN.make_linear wi bi a b g = (Ok f, g') → created wi bi default_dtype f.
Proof.
  rewrite make_linear_run. intros E. exists a, b, g.
  destruct (initial_parameters wi bi a b g) as [[w c] g1].
  by injection E as <- _.
Qed.

Lemma interior_layer_created wi bi n prev curr g l g' :
  PFNN.interior_layer wi bi n prev curr g = (Ok l, g') →
  Forall (created wi bi default_dtype) (linears_of l).
Proof.
  unfold PFNN.interior_layer. intros E. destruct curr as [c|cs].
  - apply bind_inv in E as (? & g1 & _ & E).
    apply bind_inv in E as (p & g2 & _ & E).
    apply bind_inv in E as (f & g3 & Ef & E). injection E as <- _.
    apply Forall_singleton. by eapply make_linear_created.
  - apply bind_inv in E as (? & g1 & _ & E).
    destruct prev as [p|ps]; apply bind_inv in E as (fs & g2 & Ef & E);
      injection E as <- _; cbn;
      (eapply mapM_Forall_inv; [|exact Ef]); intros j s1 f s2 Ej.
    + apply bind_inv in Ej as (c & s3 & _ & Ej).
      by eapply make_linear_created.
    + apply bind_inv in Ej as (p & s3 & _ & Ej).
      apply bind_inv in Ej as (c & s4 & _ & Ej).
      by eapply make_linear_created.
Qed.

Lemma output_layer_created wi bi n prev g l g' :
  PFNN.output_layer wi bi n prev g = (Ok l, g') →
  Forall (created wi bi default_dtype) (linears_of l).
Proof.
  unfold PFNN.output_layer. intros E. destruct prev as [p|ps].
  - apply bind_inv in E as (f & g1 & Ef & E). injection E as <- _.
    apply Forall_singleton. by eapply make_linear_created.
  - apply bind_inv in E as (fs & g1 & Ef & E). injection E as <- _. cbn.
    eapply mapM_Forall_inv; [|exact Ef]. intros j s1 f s2 Ej.
    apply bind_inv in Ej as (p & s3 & _ & Ej).
    by eapply make_linear_created.
Qed.

Lemma for_pairs_created wi bi n prev mid acc g ls g' :
  for_pairs prev mid (PFNN.new_layer wi bi n) acc g = (Ok ls, g') →
  Forall (λ l, Forall (created wi bi default_dtype) (linears_of l)) acc →
  Forall (λ l, Forall (created wi bi default_dtype) (linears_of l)) ls.
Proof.
  revert prev acc g. induction mid as [|c mid IH]; intros prev acc g E Hacc.
  - by injection E as <- _.
  - cbn [for_pairs] in E. apply bind_inv in E as (acc' & g1 & Es & E).
    apply (IH _ _ _ E). rewrite new_layer_run in Es.
    destruct (PFNN.interior_layer wi bi n prev c g) as [[l|e] g2] eqn:El;
      [|done].
    injection Es as <- _. apply Forall_app. split; [done|].
    apply Forall_singleton. by eapply interior_layer_created.
Qed.

Lemma PFNN_initialize_created wi bi sizes g layers g' :
  PFNN.initialize_layers sizes wi bi g = (Ok layers, g') →
  Forall (λ l, Forall (created wi bi default_dtype) (linears_of l)) layers.
Proof.
  intros E.
  destruct (PFNN_initialize_inv _ _ _ _ _ _ E)
    as (a & mid & n & _ & _ & -> & _).
  rewrite PFNN_initialize_long in E.
  apply bind_inv in E as (inner & g1 & Ei & E).
  apply bind_inv in E as (out & g2 & Eo & E). injection E as <- _.
  apply Forall_app. split.
  - eapply for_pairs_created; [exact Ei | constructor].
  - apply Forall_singleton. by eapply output_layer_created.
Qed.

Lemma chain_parameters_created wi bi d a ns g :
  Forall (created wi bi d) (layer_of d <$> (chain_parameters wi bi a ns g).1).
Proof.
  revert a g. induction ns as [|b ns IH]; intros a g; cbn; [constructor|].
  destruct (initial_parameters wi bi a b g) as [[w c] g1] eqn:Ei.
  specialize (IH b g1).
  destruct (chain_parameters wi bi b ns g1) as [ps g2]. cbn in *.
  constructor; [|done]. exists a, b, g. by rewrite Ei.
Qed.

Lemma FNN_initialize_created wi bi sizes g linears g' :
  FNN.initialize_layers sizes wi bi g = (Ok linears, g') →
  Forall (created wi bi config_real) linears.
Proof.
  intros E.
  destruct (FNN_initialize_outcome wi bi sizes g)
    as [[Hl E']|[(a & b & ns & -> & E')|(_ & _ & g1 & E')]];
    rewrite E' in E; [| |done].
  - injection E as <- _. constructor.
  - assert (linears = layer_of config_real
                        <$> (chain_parameters wi bi a (b :: ns) g).1)
      as -> by congruence.
    apply chain_parameters_created.
Qed.

Lemma created_well_shaped wi bi d l : created wi bi d l → well_shaped l.
Proof.
  intros (a & b & g & ->). unfold initial_parameters.
  destruct (fresh [b; a] g) as [w0 g1]. destruct (fresh [b] g1) as [b0 g2].
  destruct (wi [b; a] w0 g2) as [w g3]. destruct (bi [b] b0 g3) as [c g4].
  split; [done|]. by eexists.
Qed.

Lemma created_parameters wi bi d l (PW PB : list scalar → Prop) :
  (∀ shp v g, PW (wi shp v g).1) → (∀ shp v g, PB (bi shp v g).1) →
  created wi bi d l → parameters_satisfy PW PB l.
Proof.
  intros HW HB (a & b & g & ->). unfold initial_parameters.
  destruct (fresh [b; a] g) as [w0 g1]. destruct (fresh [b] g1) as [b0 g2].
  specialize (HW [b; a] w0 g2). destruct (wi [b; a] w0 g2) as [w g3].
  specialize (HB [b] b0 g3). destruct (bi [b] b0 g3) as [c g4].
  split; [done|]. by eexists.
Qed.

(** X8: every layer of an [FNN] and of a [PFNN] has a weight of shape
    [(out_features, in_features)] and a bias of shape [(out_features)]:
    the initializers write into the parameters and leave their shapes. *)
Theorem parameter_shapes wi bi g sizes :
  (∀ linears g',
     FNN.initialize_layers sizes wi bi g = (Ok linears, g') →
     Forall well_shaped linears) ∧
  (∀ layers g',
     PFNN.initialize_layers sizes wi bi g = (Ok layers, g') →
     Forall (λ l, Forall well_shaped (linears_of l)) layers).
Proof.
  split.
  - intros linears g' E. apply FNN_initialize_created in E.
    eapply Forall_impl; [exact E|]. intros l. apply created_well_shaped.
  - intros layers g' E. apply PFNN_initialize_created in E.
    eapply Forall_impl; [exact E|]. intros l Hl.
    eapply Forall_impl; [exact Hl|]. intros f. apply created_well_shaped.
Qed.

(** X9: the values of the parameters are those the two initializers wrote
    last: what the weight initializer ensures of the values it writes holds
    of every weight of an [FNN] and of a [PFNN], and what the bias
    initializer ensures holds of every bias; with an initializer that
    writes zeros every bias is zero. *)
Theorem initializers_write_parameters wi bi g sizes
    (PW PB : list scalar → Prop) :
  (∀ shp v g0, PW (wi shp v g0).1) → (∀ shp v g0, PB (bi shp v g0).1) →
  (∀ linears g',
     FNN.initialize_layers sizes wi bi g = (Ok linears, g') →
     Forall (parameters_satisfy PW PB) linears) ∧
  (∀ layers g',
     PFNN.initialize_layers sizes wi bi g = (Ok layers, g') →
     Forall (λ l, Forall (parameters_satisfy PW PB) (linears_of l)) layers).
Proof.
  intros HW HB. split.
  - intros linears g' E. apply FNN_initialize_created in E.
    eapply Forall_impl; [exact E|]. intros l. by apply created_parameters.
  - intros layers g' E. apply PFNN_initialize_created in E.
    eapply Forall_impl; [exact E|]. intros l Hl.
    eapply Forall_impl; [exact Hl|]. intros f. by apply created_parameters.
Qed.

End Parameters.

(** ** The sub-networks of the parallel network *)

Section Subnetworks.
Context `{Backend}.

Lemma lift_result_ok {A B} (a : A) (f : A → result B) :
  (Ok a ≫= f) = f a.
Proof. reflexivity. Qed.

Lemma mapM_result_lookup {A B} (f : A → result B) l ys :
  mapM f l = Ok ys →
  length ys = length l ∧
  ∀ j x, l !! j = Some x → ∃ y, ys !! j = Some y ∧ f x = Ok y.
Proof.
  revert ys. induction l as [|x l IH]; intros ys E.
  - injection E as <-. done.
  - cbn in E. destruct (f x) as [y|e] eqn:Ey; [|done]. cbn in E.
    destruct (mapM f l) as [k|e] eqn:Ek; [|done]. injection E as <-.
    destruct (IH k eq_refl) as [Hlen Hk]. split; [cbn; lia|].
    intros [|j] x' Hj.
    + injection Hj as <-. by exists y.
    + by apply Hk.
Qed.

(** A list of sub-layers on a list of tensors, branch by branch. *)
Lemma hidden_zip_lookup act fs xs v :
  PFNN.hidden act (PFNN.ModuleList fs) (PFNN.Many xs) = Ok v →
  length fs = length xs →
  ∃ ys, v = PFNN.Many ys ∧ length ys = length xs ∧
        ∀ j f x, fs !! j = Some f → xs !! j = Some x →
                 ∃ z, call_linear f x = Ok z ∧
                      ys !! j = Some (elementwise act z).
Proof.
  intros E Hl. cbn in E.
  destruct (mapM _ (zip fs xs)) as [ys|e] eqn:Ey; [|done].
  injection E as <-. apply mapM_result_lookup in Ey as [Hlen Hy].
  exists ys. split; [done|]. split.
  { rewrite Hlen, length_zip_with. lia. }
  intros j f x Hf Hx.
  destruct (Hy j (f, x)) as (y & Hj & Ej).
  { apply lookup_zip_with_Some. by exists f, x. }
  cbn in Ej. destruct (call_linear f x) as [z|e]; [|done].
  injection Ej as <-. by exists z.
Qed.

(** A list of sub-layers on one tensor, branch by branch. *)
Lemma hidden_shared_lookup act fs x v :
  PFNN.hidden act (PFNN.ModuleList fs) (PFNN.One x) = Ok v →
  ∃ ys, v = PFNN.Many ys ∧ length ys = length fs ∧
        ∀ j f, fs !! j = Some f →
               ∃ z, call_linear f x = Ok z ∧
                    ys !! j = Some (elementwise act z).
Proof.
  intros E. cbn in E.
  destruct (mapM _ fs) as [ys|e] eqn:Ey; [|done].
  injection E as <-. apply mapM_result_lookup in Ey as [Hlen Hy].
  exists ys. split; [done|]. split; [done|].
  intros j f Hf. destruct (Hy j f Hf) as (y & Hj & Ej).
  cbn in Ej. destruct (call_linear f x) as [z|e]; [|done].
  injection Ej as <-. by exists z.
Qed.

(** A run of lists of sub-layers: the [j]-th tensor goes through the
    [j]-th sub-layers and through no other. *)
Lemma hidden_columns act fss xs v :
  for_each_pure (PFNN.ModuleList <$> fss) (PFNN.hidden act) (PFNN.Many xs)
  = Ok v →
  Forall (λ fs, length fs = length xs) fss →
  ∃ ys, v = PFNN.Many ys ∧ length ys = length xs ∧
        ∀ j x, xs !! j = Some x →
               ∃ y, ys !! j = Some y ∧ alternate act (column j fss) x = Ok y.
Proof.
  revert xs. induction fss as [|fs fss IH]; intros xs E Hl.
  - injection E as <-. exists xs. split; [done|]. split; [done|].
    intros j x Hx. by exists x.
  - apply Forall_cons in Hl as [Hfs Hl]. cbn [fmap list_fmap] in E.
    cbn [for_each_pure] in E.
    destruct (PFNN.hidden act (PFNN.ModuleList fs) (PFNN.Many xs))
      as [v1|e] eqn:E1; [|done].
    destruct (hidden_zip_lookup act fs xs v1 E1 Hfs) as (zs & -> & Hz & Hstep).
    destruct (IH zs E) as (ys & -> & Hy & Hrest).
    { eapply Forall_impl; [exact Hl|]. intros fs' Hfs'. cbn in *. lia. }
    exists ys. split; [done|]. split; [lia|].
    intros j x Hx.
    assert (is_Some (fs !! j)) as [f Hf].
    { apply lookup_lt_is_Some. apply lookup_lt_Some in Hx. lia. }
    destruct (Hstep j f x Hf Hx) as (z & Ez & Hzj).
    destruct (Hrest j _ Hzj) as (y & Hyj & Ey).
    exists y. split; [done|].
    unfold column. cbn [omap list_omap]. rewrite Hf.
    cbn [alternate]. rewrite Ez. exact Ey.
Qed.

Lemma interior_chain_branched n prev (bs : list (list nat)) inner :
  interior_chain n prev (Branched <$> bs) inner →
  ∃ fss, inner = PFNN.ModuleList <$> fss ∧
         Forall (λ fs, length fs = n) fss.
Proof.
  revert prev inner. induction bs as [|b bs IH]; intros prev [|l inner] Hc;
    try done.
  - by exists [].
  - destruct Hc as [Hf Hc]. destruct (IH _ _ Hc) as (fss & -> & Hl).
    destruct Hf as (fs & -> & Hb & Hp & Hd & _).
    exists (fs :: fss). split; [done|]. constructor; [|done].
    eapply dims_length; [exact Hd | by apply branch_inputs_length | done].
Qed.

(** X10: the sub-networks of a [PFNN] are independent.  When the layer sizes
    branch right after the input size, every element of [self.layers] is a
    list of one sub-layer per output, and on an input of the input size the
    forward pass returns the concatenation along dimension 1 of [n]
    tensors, the [j]-th of which is what the [j]-th sub-layers alone
    compute from the input, as a fully-connected network of their own does:
    linear transform and activation for each but the last, then the last
    linear transform. *)
Theorem PFNN_independent_subnetworks a b bs n act ini g net g' tin inputs :
  PFNN.__init__ (Scalar a :: (Branched <$> b :: bs) ++ [Scalar n]) act ini g
  = (Ok net, g') →
  0 < n →
  width (transformed tin inputs) = a →
  ∃ fs fss outs ys y,
    PFNN.layers net
    = PFNN.ModuleList fs :: (PFNN.ModuleList <$> fss)
      ++ [PFNN.ModuleList outs] ∧
    length ys = n ∧
    (∀ j, j < n →
       ∃ last yj,
         outs !! j = Some last ∧ ys !! j = Some yj ∧
         described_forward (PFNN.activation net) None None
           (column j (fs :: fss)) last (transformed tin inputs) = Ok yj) ∧
    torch_cat1 ys = Ok y ∧
    PFNN.forward inputs (PFNN_with tin None net)
    = (Ok y, PFNN_with tin None net).
Proof.
  intros E Hn Hw.
  apply PFNN_init_inv in E as (sigma & wi & bi & _ & _ & _ & E & _).
  apply PFNN_initialize_inv in E
    as (a' & mid & n' & inner & out & Es & _ & El & Hc & Hm & Ho).
  rewrite !app_comm_cons in Es.
  apply app_inj_tail in Es as [Eh [= <-]].
  assert (a' = a ∧ mid = Branched <$> b :: bs) as [-> ->].
  { injection Eh as <- <-. done. }
  clear Eh.
  destruct (interior_chain_branched n _ (b :: bs) inner Hc)
    as (fss0 & Hi & Hlens).
  destruct fss0 as [|fs fss].
  { destruct inner; [by destruct Hc | done]. }
  apply Forall_cons in Hlens as [Hfs Hlens].
  assert (∃ ps, List.last (Branched <$> b :: bs) (Scalar a) = Branched ps)
    as [ps Elast].
  { rewrite fmap_cons, last_cons_default, last_fmap. eauto. }
  set (x0 := transformed tin inputs) in *.
  destruct (hidden_loop (PFNN.activation net) n (Scalar a) _ inner
              (length (rows x0)) (PFNN.One x0) Hc) as (v & Ev & Hv).
  { by exists x0. }
  destruct (output_step n _ out (length (rows x0)) v Ho Hm Hv Hn)
    as (y & Ey & _).
  rewrite Elast in Ho, Hm, Hv. cbn in Hm.
  destruct Ho as (outs & -> & Hd & _).
  destruct Hv as (xs & -> & Hxs & _).
  assert (Hlo : length outs = n)
    by (eapply dims_length; [exact Hd | done | apply length_replicate]).
  assert (Hlx : length xs = n) by (by rewrite <- (length_fmap width), Hxs).
  (* the first element, on the input *)
  rewrite Hi in Ev. cbn [fmap list_fmap for_each_pure] in Ev.
  destruct (PFNN.hidden (PFNN.activation net) (PFNN.ModuleList fs)
              (PFNN.One x0)) as [v1|e] eqn:E1; [|done].
  destruct (hidden_shared_lookup _ fs x0 v1 E1) as (zs & -> & Hz & Hfirst).
  change (for_each_pure (PFNN.ModuleList <$> fss)
            (PFNN.hidden (PFNN.activation net)) (PFNN.Many zs)
          = Ok (PFNN.Many xs)) in Ev.
  (* the elements after it, branch by branch *)
  destruct (hidden_columns _ fss zs _ Ev) as (xs' & [= <-] & _ & Hcols).
  { eapply Forall_impl; [exact Hlens|]. intros fs' Hfs'. cbn in *. lia. }
  (* the output layers, branch by branch *)
  cbn in Ey. destruct (mapM _ (zip outs xs)) as [ys|e] eqn:Eys; [|done].
  cbn in Ey.
  destruct (mapM_result_lookup _ _ _ Eys) as [Hly Hys].
  exists fs, fss, outs, ys, y.
  split; [by rewrite El, Hi|].
  split; [rewrite Hly, length_zip_with; lia|].
  split.
  { intros j Hj.
    assert (is_Some (fs !! j)) as [f Hf]
      by (apply lookup_lt_is_Some; lia).
    assert (is_Some (outs !! j)) as [last Hlast]
      by (apply lookup_lt_is_Some; lia).
    destruct (Hfirst j f Hf) as (z & Ez & Hzj).
    destruct (Hcols j _ Hzj) as (x & Hxj & Ex).
    destruct (Hys j (last, x)) as (yj & Hyj & Eyj).
    { apply lookup_zip_with_Some. by exists last, x. }
    exists last, yj. split; [done|]. split; [done|].
    unfold described_forward, column. cbn [omap list_omap]. rewrite Hf.
    cbn [alternate]. rewrite Ez. cbn.
    fold (column j fss). rewrite Ex. cbn. cbn in Eyj. by rewrite Eyj. }
  split; [done|].
  rewrite (PFNN_forward_run (PFNN_with tin None net) inner
             (PFNN.ModuleList outs)) by done.
  cbn [PFNN_with PFNN.activation PFNN._input_transform
    PFNN._output_transform].
  fold x0. rewrite Hi. cbn [fmap list_fmap for_each_pure]. rewrite E1.
  rewrite (lift_result_ok (PFNN.Many zs)), Ev.
  rewrite (lift_result_ok (PFNN.Many xs)). cbn [PFNN.output].
  rewrite Eys. cbn. by rewrite Ey.
Qed.

End Subnetworks.

(** ** More of the theorems at work on the integer backend *)

Lemma FNN_layers_follow_sizes_witness :
  ∃ linears g',
    FNN.initialize_layers (H := Zbackend.backend)
      [Scalar 2; Scalar 3; Scalar 2] Zbackend.uniform_ Zbackend.zeros_ 1%Z
    = (Ok linears, g') ∧
    length linears = 2 ∧
    ∀ i l, linears !! i = Some l →
           [Scalar 2; Scalar 3; Scalar 2] !! i
           = Some (Scalar (in_features l)) ∧
           [Scalar 2; Scalar 3; Scalar 2] !! S i
           = Some (Scalar (out_features l)).
Proof.
  eexists _, _. split; [reflexivity|].
  eapply (FNN_layers_follow_sizes (H := Zbackend.backend)
            Zbackend.uniform_ Zbackend.zeros_ 1%Z
            [Scalar 2; Scalar 3; Scalar 2]).
  reflexivity.
Defined.

Lemma FNN_short_sizes_witness :
  ∃ net,
    FNN.__init__ (H := Zbackend.backend) [Branched [4; 4]] "relu" "uniform"
      1%Z = (Ok net, 1%Z) ∧
    FNN.linears net = [] ∧
    ∀ tin tout inputs,
      FNN.forward inputs (FNN_with tin tout net)
      = (Raise IndexError, FNN_with tin tout net).
Proof.
  apply (FNN_short_sizes (H := Zbackend.backend) [Branched [4; 4]]
           "relu" "uniform" 1%Z); [cbn; lia | by eexists ..].
Defined.

Lemma PFNN_accepted_sizes_witness :
  ∃ layers g',
    PFNN.initialize_layers (H := Zbackend.backend)
      (Scalar 2 :: (Scalar <$> [4]) ++ (Branched <$> [[3; 3]; [2; 1]])
         ++ [Scalar 2]) Zbackend.uniform_ Zbackend.zeros_ 1%Z
    = (Ok layers, g').
Proof.
  apply (proj2 (PFNN_accepted_sizes (H := Zbackend.backend)
                  Zbackend.uniform_ Zbackend.zeros_ 1%Z _)).
  exists 2, [4], [[3; 3]; [2; 1]], 2. split; [reflexivity|].
  repeat constructor.
Defined.

Lemma PFNN_first_offence_witness :
  (∃ g', PFNN.initialize_layers (H := Zbackend.backend)
           (Scalar 2 :: (Scalar <$> [4]) ++ (Branched <$> [[3; 3]]) ++
              Branched [1; 1; 1] :: [Scalar 5] ++ [Scalar 2])
           Zbackend.uniform_ Zbackend.zeros_ 1%Z
         = (Raise (AssertionError
              "number of sub-layers should equal number of network outputs"),
            g')) ∧
  (∃ g', PFNN.initialize_layers (H := Zbackend.backend)
           (Scalar 2 :: (Scalar <$> [4]) ++ (Branched <$> [[3; 3]]) ++
              Scalar 5 :: [Branched [1; 1; 1]] ++ [Scalar 2])
           Zbackend.uniform_ Zbackend.zeros_ 1%Z
         = (Raise (AssertionError
              "cannot rejoin parallel subnetworks after splitting"), g')).
Proof.
  assert (Hb : Forall (λ b : list nat, length b = 2) [[3; 3]])
    by (repeat constructor).
  split.
  - apply (proj1 (PFNN_first_offence (H := Zbackend.backend)
                    Zbackend.uniform_ Zbackend.zeros_ 1%Z
                    2 [4] [[3; 3]] [Scalar 5] 2 Hb) [1; 1; 1]).
    cbn; lia.
  - apply (proj2 (PFNN_first_offence (H := Zbackend.backend)
                    Zbackend.uniform_ Zbackend.zeros_ 1%Z
                    2 [4] [[3; 3]] [Branched [1; 1; 1]] 2 Hb) 5).
    done.
Defined.

Lemma PFNN_layer_count_witness :
  ∃ layers g',
    PFNN.initialize_layers (H := Zbackend.backend)
      [Scalar 2; Scalar 4; Branched [3; 2]; Scalar 2]
      Zbackend.uniform_ Zbackend.zeros_ 1%Z = (Ok layers, g') ∧
    length layers = 3 ∧
    ∀ i fs, layers !! i = Some (PFNN.ModuleList fs) → length fs = 2.
Proof.
  eexists _, _. split; [reflexivity|].
  eapply (PFNN_layer_count (H := Zbackend.backend)
            Zbackend.uniform_ Zbackend.zeros_ 1%Z
            [Scalar 2; Scalar 4; Branched [3; 2]; Scalar 2]);
    reflexivity.
Defined.

Lemma parameter_shapes_witness :
  (∃ linears g',
     FNN.initialize_layers (H := Zbackend.backend)
       [Scalar 2; Scalar 3; Scalar 2]
       Zbackend.uniform_ Zbackend.zeros_ 1%Z = (Ok linears, g') ∧
     Forall well_shaped linears) ∧
  (∃ layers g',
     PFNN.initialize_layers (H := Zbackend.backend)
       [Scalar 2; Branched [3; 2]; Scalar 2]
       Zbackend.uniform_ Zbackend.zeros_ 1%Z = (Ok layers, g') ∧
     Forall (λ l, Forall well_shaped (linears_of l)) layers).
Proof.
  split; eexists _, _; (split; [reflexivity|]).
  - apply (proj1 (parameter_shapes (H := Zbackend.backend)
                    Zbackend.uniform_ Zbackend.zeros_ 1%Z
                    [Scalar 2; Scalar 3; Scalar 2]) _ _ eq_refl).
  - apply (proj2 (parameter_shapes (H := Zbackend.backend)
                    Zbackend.uniform_ Zbackend.zeros_ 1%Z
                    [Scalar 2; Branched [3; 2]; Scalar 2]) _ _ eq_refl).
Defined.

Lemma initializers_write_parameters_witness :
  ∃ layers g',
    PFNN.initialize_layers (H := Zbackend.backend)
      [Scalar 2; Branched [3; 2]; Scalar 2]
      Zbackend.uniform_ Zbackend.zeros_ 1%Z = (Ok layers, g') ∧
    Forall (λ l, Forall (parameters_satisfy (H := Zbackend.backend)
                           (λ _, True) (Forall (λ z, z = 0%Z)))
                   (linears_of l)) layers.
Proof.
  eexists _, _. split; [reflexivity|].
  apply (proj2 (initializers_write_parameters (H := Zbackend.backend)
                  Zbackend.uniform_ Zbackend.zeros_ 1%Z
                  [Scalar 2; Branched [3; 2]; Scalar 2]
                  (λ _, True) (Forall (λ z, z = 0%Z))
                  (λ _ _ _, I)
                  (λ _ v _, proj2 (Forall_fmap _ _ v)
                              (Forall_true _ v (λ _, eq_refl))))
           _ _ eq_refl).
Defined.

Lemma PFNN_independent_subnetworks_witness :
  ∃ net g',
    PFNN.__init__ (H := Zbackend.backend)
      (Scalar 2 :: (Branched <$> [3; 2] :: [[2; 2]]) ++ [Scalar 2])
      "relu" "uniform" 1%Z = (Ok net, g') ∧
    ∃ fs fss outs ys y,
      PFNN.layers net
      = PFNN.ModuleList fs :: (PFNN.ModuleList <$> fss)
        ++ [PFNN.ModuleList outs] ∧
      length ys = 2 ∧
      (∀ j, j < 2 →
         ∃ last yj,
           outs !! j = Some last ∧ ys !! j = Some yj ∧
           described_forward (PFNN.activation net) None None
             (column j (fs :: fss)) last Zbackend.batch = Ok yj) ∧
      torch_cat1 ys = Ok y ∧
      PFNN.forward Zbackend.batch (PFNN_with None None net)
      = (Ok y, PFNN_with None None net).
Proof.
  eexists _, _. split; [reflexivity|].
  eapply (PFNN_independent_subnetworks (H := Zbackend.backend)
            2 [3; 2] [[2; 2]] 2 "relu" "uniform" 1%Z _ _ None
            Zbackend.batch); [reflexivity | lia | reflexivity].
Defined.
